(** * snow: a falling-snow terminal animation (snow.py)

    A shallow embedding of [snow.py] and the properties of its field
    update, renderer and input loop.

    Python integers are unbounded, so they are [Z]; a flake is a pair
    [(row, column)] of them.  The program mutates one [Snow] object and
    three variables of [main] shared by its two closures, draws from the
    global random generator, and reads standard input; these make up the
    [World] that every operation threads.  A Python exception leaves the
    mutations made before it in place, so a computation returns the world
    it reached together with either a value or the exception raised. *)

From Stdlib Require Import ZArith Lia Ascii String.
From stdpp Require Import base list strings.
From stdpp Require Import gmap.

Open Scope Z_scope.

(** ** Exceptions and results *)

Inductive exn : Set :=
| ValueError   (* random.sample: sample larger than population or negative *)
| IndexError   (* list index out of range *)
| EOFError.    (* input(): end of file *)

Inductive result (A : Type) : Type :=
| Ok (a : A)
| Raise (e : exn).
Arguments Ok {A} a.
Arguments Raise {A} e.

(** ** The data model *)

(** Flakes are tuples of (row, column). *)
Definition flake : Type := Z * Z.

(** The attributes of a [Snow] object, as [Snow.__init__] sets them. *)
Record Snow : Type := mkSnow {
  height : Z;
  width : Z;
  intensity : Z;
  flakes : list flake
}.

(** [Snow(height, width, intensity)]: the flake list starts empty. *)
Definition Snow_init (h w i : Z) : Snow := mkSnow h w i [].

(** The random generator: an unbounded supply of raw draws and the
    position of the next one.  Which draws come is not known to the
    program, so every theorem quantifies over the supply. *)
Record Rng : Type := mkRng {
  draws : nat -> nat;
  pos : nat
}.

Record World : Type := mkWorld {
  snow : Snow;            (* the object shared between the threads *)
  running : bool;         (* controls the running of the program *)
  display_help : bool;
  rng : Rng;              (* the state of module [random] *)
  stdin : list string     (* the lines still to be read; none left: end of input *)
}.

Definition with_snow (s : Snow) (w : World) : World :=
  mkWorld s (running w) (display_help w) (rng w) (stdin w).
Definition with_running (b : bool) (w : World) : World :=
  mkWorld (snow w) b (display_help w) (rng w) (stdin w).
Definition with_display_help (b : bool) (w : World) : World :=
  mkWorld (snow w) (running w) b (rng w) (stdin w).
Definition with_rng (g : Rng) (w : World) : World :=
  mkWorld (snow w) (running w) (display_help w) g (stdin w).
Definition with_stdin (l : list string) (w : World) : World :=
  mkWorld (snow w) (running w) (display_help w) (rng w) l.

Definition with_flakes (fl : list flake) (s : Snow) : Snow :=
  mkSnow (height s) (width s) (intensity s) fl.
Definition with_intensity (i : Z) (s : Snow) : Snow :=
  mkSnow (height s) (width s) i (flakes s).

(** ** The monad of effects *)

Definition M (A : Type) : Type := World -> result A * World.

Definition ret {A : Type} (a : A) : M A := fun w => (Ok a, w).

Definition raise {A : Type} (e : exn) : M A := fun w => (Raise e, w).

Definition bind {A B : Type} (m : M A) (k : A -> M B) : M B :=
  fun w =>
    match m w with
    | (Ok a, w') => k a w'
    | (Raise e, w') => (Raise e, w')
    end.

Declare Scope snow_scope.
Delimit Scope snow_scope with snow.
Notation "x <- m ;; k" := (bind m (fun x => k))
  (at level 100, m at level 99, right associativity) : snow_scope.
Notation "m ;; k" := (bind m (fun _ => k))
  (at level 100, right associativity) : snow_scope.
Open Scope snow_scope.

Definition get_snow : M Snow := fun w => (Ok (snow w), w).

(** [self.flakes = fl] *)
Definition set_flakes (fl : list flake) : M unit :=
  fun w => (Ok tt, with_snow (with_flakes fl (snow w)) w).

(** [snow.intensity = i] *)
Definition set_intensity (i : Z) : M unit :=
  fun w => (Ok tt, with_snow (with_intensity i (snow w)) w).

(** ** Module [random] *)

(** [random._randbelow(n)]: a number below [n], from the next raw draw. *)
Definition randbelow (n : nat) : M nat :=
  fun w =>
    let g := rng w in
    (Ok (draws g (pos g) mod n)%nat, with_rng (mkRng (draws g) (S (pos g))) w).

(** [seq[i]] for an index that is not negative. *)
Definition item {A : Type} (l : list A) (i : nat) : M A :=
  match l !! i with
  | Some x => ret x
  | None => raise IndexError
  end.

(** [random.choice(seq)]: [seq[_randbelow(len(seq))]], and an
    [IndexError] on an empty sequence. *)
Definition random_choice (seq : list Z) : M Z :=
  match seq with
  | [] => raise IndexError
  | _ => i <- randbelow (length seq) ;; item seq i
  end.

(** The selection loop of [random.sample]: at step [i] the items not yet
    selected are [pool[0 : n - i]]; one of them is drawn and the last of
    them moves into its place.  [m] is [n - i] and [k] the number of
    steps left. *)
Fixpoint sample_pool (pool : list Z) (m k : nat) : M (list Z) :=
  match k with
  | O => ret []
  | S k' =>
      j <- randbelow m ;;
      x <- item pool j ;;
      y <- item pool (m - 1) ;;
      rest <- sample_pool (<[j := y]> pool) (m - 1) k' ;;
      ret (x :: rest)
  end.

(** [random.sample(population, k)]: [k] items of the population chosen
    without replacement; a [ValueError] unless [0 <= k <= len(population)].
    (CPython tracks the selection in a set instead of a pool when the
    population is large; both return a selection without replacement.) *)
Definition random_sample (population : list Z) (k : Z) : M (list Z) :=
  let n := length population in
  if (0 <=? k) && (k <=? Z.of_nat n)
  then sample_pool population n (Z.to_nat k)
  else raise ValueError.

(** [range(n)] as a list. *)
Definition range (n : Z) : list Z := seqZ 0 n.

(** ** Class [Snow] *)

(** [n / d] rounded to the nearest integer, ties to the even one: the
    rounding of a double's 53-bit significand. *)
Definition round_half_even (n d : Z) : Z :=
  let q := n / d in
  let r := n mod d in
  if 2 * r <? d then q
  else if d <? 2 * r then q + 1
  else if Z.even q then q else q + 1.

(** [n / 100] for an integer [n > 0], as Python computes it: the double
    nearest to the true quotient, given as [(m, e)] for [m * 2^e] with
    [2^52 <= m <= 2^53]. *)
Definition double_quotient100 (n : Z) : Z * Z :=
  let s0 := 59 - Z.log2 n in
  let over := if 0 <=? s0 then 100 * 2 ^ 53 <=? n * 2 ^ s0
              else 100 * 2 ^ 53 * 2 ^ (- s0) <=? n in
  let s := if over then s0 - 1 else s0 in
  let m := if 0 <=? s then round_half_even (n * 2 ^ s) 100
           else round_half_even n (100 * 2 ^ (- s)) in
  (m, - s).

(** [int(a / 100)] for an integer [a], through the double: [None] is the
    [OverflowError] of a quotient beyond the doubles; [int] truncates
    towards zero. *)
Definition double_int_div100 (a : Z) : option Z :=
  if a =? 0 then Some 0
  else
    let (m, e) := double_quotient100 (Z.abs a) in
    if 2 ^ 1024 <=? (if 0 <=? e then m * 2 ^ e else 0) then None
    else Some (Z.sgn a * (if 0 <=? e then m * 2 ^ e else m / 2 ^ (- e))).

(** [int(a / 100)] for integers [a] with [|a| < 2^53]: the true quotient
    truncated towards zero.  Python rounds the quotient to a double
    first; below [2^53] the rounding cannot reach the next integer
    ([double_int_div100_exact]), beyond it can
    ([double_int_div100_rounds_up]).  The statements on the count of
    [new_flakes] for arbitrary sizes carry the bound
    [width * intensity < 2^53]. *)
Definition int_div100 (a : Z) : Z := Z.quot a 100.

(** The local [num_flakes] of [new_flakes]. *)
Definition num_flakes (s : Snow) : Z := int_div100 (width s * intensity s).

(** [Snow.new_flakes]: adds flakes to 0 to 9% of the top row's columns
    based on intensity. *)
Definition new_flakes : M (list flake) :=
  s <- get_snow ;;
  cols <- random_sample (range (width s)) (num_flakes s) ;;
  ret (map (fun col => (0, col)) cols).

(** [Snow.moved_flakes]: move flakes down and randomly shimmy them. *)
Fixpoint moved_flakes (fl : list flake) : M (list flake) :=
  match fl with
  | [] => ret []
  | (row, col) :: rest =>
      d <- random_choice [-1; 0; 1] ;;
      rest' <- moved_flakes rest ;;
      ret ((row + 1, col + d) :: rest')
  end.

(** The test of the last comprehension of [update_flakes]: it reads the
    row alone. *)
Definition in_rows (h : Z) (f : flake) : Prop := fst f < h.

#[global] Instance in_rows_dec (h : Z) (f : flake) : Decision (in_rows h f) :=
  Z_lt_dec (fst f) h.

(** [Snow.update_flakes]: move the existing flakes, introduce new ones,
    remove those that fell out of the bottom. *)
Definition update_flakes : M unit :=
  s <- get_snow ;;
  moved <- moved_flakes (flakes s) ;;
  set_flakes moved ;;
  s <- get_snow ;;
  new <- new_flakes ;;
  set_flakes (flakes s ++ new) ;;
  s <- get_snow ;;
  set_flakes (filter (in_rows (height s)) (flakes s)).

(** [l[i]] with Python's indices: [0 .. len - 1] from the front and
    [-len .. -1] from the back; anything else is out of range. *)
Definition py_index (n : nat) (i : Z) : option nat :=
  if (0 <=? i) && (i <? Z.of_nat n) then Some (Z.to_nat i)
  else if (- Z.of_nat n <=? i) && (i <? 0) then Some (Z.to_nat (Z.of_nat n + i))
  else None.

(** [l[i]] *)
Definition getitem {A : Type} (l : list A) (i : Z) : M A :=
  match py_index (length l) i with
  | Some j => item l j
  | None => raise IndexError
  end.

(** [l[i] = x], as the list after the assignment. *)
Definition setitem {A : Type} (l : list A) (i : Z) (x : A) : M (list A) :=
  match py_index (length l) i with
  | Some j => ret (<[j := x]> l)
  | None => raise IndexError
  end.

Definition blank : ascii := " "%char.
Definition marker : ascii := "*"%char.
Definition newline : string := String (ascii_of_nat 10) EmptyString.

(** The grid of [render]: a list of rows, each row a list of cells, each
    cell one character.  The rows are built one by one, so no two of
    them are the same list object. *)
Abbreviation grid := (list (list ascii)).

(** [[[" "] * width for _ in range(height)]] *)
Definition blank_grid (h w : Z) : grid :=
  replicate (Z.to_nat h) (replicate (Z.to_nat w) blank).

(** The loop of [render] over the flakes. *)
Fixpoint mark_flakes (h w : Z) (fl : list flake) (g : grid) : M grid :=
  match fl with
  | [] => ret g
  | (row, col) :: rest =>
      if (row <? h) && (col <? w) then
        r <- getitem g row ;;
        r' <- setitem r col marker ;;
        g' <- setitem g row r' ;;
        mark_flakes h w rest g'
      else mark_flakes h w rest g
  end.

(** ["\n".join("".join(row) for row in grid)] *)
Definition join_rows (g : grid) : string :=
  String.concat newline (map string_of_list_ascii g).

(** [Snow.render] *)
Definition render : M string :=
  s <- get_snow ;;
  g <- mark_flakes (height s) (width s) (flakes s) (blank_grid (height s) (width s)) ;;
  ret (join_rows g).

(** ** The input thread of [main] *)

(** [re.match(r"[0-9]", s)]: the string starts with a digit. *)
Definition is_digit (c : ascii) : bool :=
  let n := nat_of_ascii c in (48 <=? n)%nat && (n <=? 57)%nat.

Definition re_match_digit (s : string) : bool :=
  match s with
  | String c _ => is_digit c
  | EmptyString => false
  end.

(** [int(s)] for a string of decimal digits; a [ValueError] on any other
    string (signs, blanks and underscores are left out: the guard of the
    only call admits one digit). *)
Fixpoint int_digits (acc : Z) (s : string) : M Z :=
  match s with
  | EmptyString => ret acc
  | String c rest =>
      if is_digit c
      then int_digits (10 * acc + (Z.of_nat (nat_of_ascii c) - 48)) rest
      else raise ValueError
  end.

Definition int_of_str (s : string) : M Z :=
  match s with
  | EmptyString => raise ValueError
  | _ => int_digits 0 s
  end.

(** The [match user_input] statement of [user_input_handler]. *)
Definition handle_input (user_input : string) : M unit :=
  if (user_input =? "x")%string then
    fun w => (Ok tt, with_running false w)
  else if (user_input =? "i")%string then
    s <- get_snow ;; set_intensity (Z.min (intensity s + 1) 10)
  else if (user_input =? "d")%string then
    s <- get_snow ;; set_intensity (Z.max (intensity s - 1) 0)
  else if (user_input =? "h")%string then
    fun w => (Ok tt, with_display_help (negb (display_help w)) w)
  else if (String.length user_input =? 1)%nat && re_match_digit user_input then
    n <- int_of_str user_input ;; set_intensity n
  else ret tt.

(** The loop of [user_input_handler] over the lines standard input still
    holds: while [running], [input()] takes the next line, or raises
    [EOFError] when there is none, and the line is handled. *)
Fixpoint input_loop (lines : list string) : M unit :=
  fun w =>
    if running w then
      match lines with
      | [] => (Raise EOFError, w)
      | user_input :: rest =>
          (handle_input user_input ;; input_loop rest) (with_stdin rest w)
      end
    else (Ok tt, w).

Definition user_input_handler : M unit :=
  fun w => input_loop (stdin w) w.

(** ** Worlds to run on *)

(** A generator whose every raw draw is [0]. *)
Definition zero_rng : Rng := mkRng (fun _ => O) O.

(** The world [main] starts its threads in. *)
Definition start (s : Snow) (g : Rng) (lines : list string) : World :=
  mkWorld s true true g lines.

(** [n] calls of [update_flakes], stopping at the first exception. *)
Fixpoint ticks (n : nat) : M unit :=
  match n with
  | O => ret tt
  | S n' => update_flakes ;; ticks n'
  end.

(** ** The vocabulary of the properties *)

(** What a draw changes: the generator, and nothing else of the world. *)
Definition only_rng (w w' : World) : Prop :=
  snow w' = snow w /\ running w' = running w /\
  display_help w' = display_help w /\ stdin w' = stdin w.

(** What [new_flakes] returns on a field [s]: [num_flakes s] flakes of the
    top row, in columns of the field, no column twice. *)
Definition spawned (s : Snow) (new : list flake) : Prop :=
  Z.of_nat (length new) = num_flakes s /\
  Forall (fun f => fst f = 0 /\ 0 <= snd f < width s) new /\
  NoDup (map snd new).

(** How [moved_flakes] moves one flake: down by one, and sideways by at
    most one. *)
Definition shimmied (f f' : flake) : Prop :=
  exists d, (d = -1 \/ d = 0 \/ d = 1) /\ f' = (fst f + 1, snd f + d).

(** The world between the first two statements of [update_flakes]. *)
Definition after_move (moved : list flake) (w1 : World) : World :=
  with_snow (with_flakes moved (snow w1)) w1.

(** The pathological field of the scenario: height 3, width 5,
    intensity 100, no flakes. *)
Definition pathological : World := start (Snow_init 3 5 100) zero_rng [].

(** A field of height 3 with one flake in its last row and one above. *)
Definition last_row_world : World :=
  start (mkSnow 3 5 100 [(2, 1); (0, 4)]) zero_rng [].

(** A field of width 5 with flakes left of it, right of it and in it. *)
Definition drifted_world : World :=
  start (mkSnow 4 5 0 [(0, -7); (1, 9); (2, 3)]) zero_rng [].


(** The world [main] starts by default, with the given lines on standard
    input. *)
Definition default_world (lines : list string) : World :=
  start (Snow_init 30 100 2) zero_rng lines.

(** The count of [new_flakes] is one that [random.sample] accepts for the
    columns of the field. *)
Definition sample_defined (s : Snow) : Prop :=
  0 <= num_flakes s <= Z.of_nat (length (range (width s))).

(** The field at the highest intensity [main] accepts, and one ["i"] to
    come. *)
Definition busiest_world : World := start (Snow_init 30 100 9) zero_rng ["i"%string].

(** The assignment [grid[row][col] = "*"] of [render]: the grid after
    it, or nothing when an index is out of range. *)
Definition mark_cell (g : grid) (row col : Z) : option grid :=
  match py_index (length g) row with
  | Some i =>
      match g !! i with
      | Some r =>
          match py_index (length r) col with
          | Some j => Some (<[i := <[j := marker]> r]> g)
          | None => None
          end
      | None => None
      end
  | None => None
  end.

(** A grid of [h] rows of [w] cells, each blank or marked. *)
Definition shaped (h w : nat) (g : grid) : Prop :=
  length g = h /\
  Forall (fun r => length r = w /\ Forall (fun c => c = blank \/ c = marker) r) g.

(** A flake that passes the test of [render] and indexes outside the
    grid all the same: its row or its column lies too far below zero. *)
Definition off_grid (h w : Z) (f : flake) : Prop :=
  fst f < h /\ snd f < w /\ (fst f < - Z.max 0 h \/ snd f < - Z.max 0 w).

(** [s.split("\n")]: the lines of a text. *)
Fixpoint split_lines (s : string) : list string :=
  match s with
  | EmptyString => [EmptyString]
  | String c rest =>
      if Ascii.eqb c (ascii_of_nat 10) then EmptyString :: split_lines rest
      else match split_lines rest with
           | l :: ls => String c l :: ls
           | [] => [String c EmptyString]
           end
  end.

(** The cell of a grid at row [i] and column [j], both from 0. *)
Definition cell (g : grid) (i j : nat) : option ascii :=
  match g !! i with
  | Some r => r !! j
  | None => None
  end.

(** The character of a text at line [i] and column [j]. *)
Definition text_cell (out : string) (i j : nat) : option ascii :=
  match split_lines out !! i with
  | Some l => String.get j l
  | None => None
  end.

(** The cell the flake [f] marks in a grid of [H] rows of [W] cells, as
    [render] tests and indexes it. *)
Definition marks_at (h w : Z) (f : flake) (i j : nat) : Prop :=
  fst f < h /\ snd f < w /\
  py_index (Z.to_nat h) (fst f) = Some i /\ py_index (Z.to_nat w) (snd f) = Some j.

(** The default field after two ticks in which the first flake spawns in
    column 0 and drifts left. *)
Definition left_drift_world : World := snd (ticks 2 (default_world [])).

(** A field of width 12 at intensity 9 after fourteen ticks in which
    every flake spawns in column 0 and drifts left. *)
Definition far_drift_world : World :=
  snd (ticks 14 (start (Snow_init 30 12 9) zero_rng [])).

(** ** The simulation thread of [main] *)

(** The [help_text] of [main]. *)
Definition help_text : string :=
  String.concat newline
    ["[0-9]: set intensity"; "i: increase intensity"; "d: decrease intensity";
     "x: exit simulation"; "h: toggle this help"]%string.

(** One pass of the loop of [snow_simulation]: the tick, then the texts
    it prints after clearing the screen, the scene and, when
    [display_help], the help.  (The sleep that follows changes nothing
    of the world.) *)
Definition frame : M (list string) :=
  update_flakes ;;
  out <- render ;;
  fun w => (Ok (if display_help w then [out; help_text] else [out]), w).

(** What the two threads of [main] do, one step at a time: a pass of
    [snow_simulation], or a line that [user_input_handler] has read. *)
Inductive event : Type :=
| Frame
| Line (user_input : string).

(** A run of the two threads in the order the events give; both loops
    test [running] before each of their passes.  It returns the texts of
    the frames it has drawn.  (The handler writes one attribute per
    line and the tick reads the intensity once, so a write that falls
    within a tick acts as one before or after it.) *)
Fixpoint run (evs : list event) : M (list (list string)) :=
  match evs with
  | [] => ret []
  | ev :: rest =>
      fun w =>
        if running w then
          match ev with
          | Frame => (p <- frame ;; ps <- run rest ;; ret (p :: ps)) w
          | Line user_input => (handle_input user_input ;; run rest) w
          end
        else (Ok [], w)
  end.

(** ** More vocabulary *)

(** Where a flake that spawned in the top row of the field can be: in a
    row of the field, and no further from the columns of the field than
    its row number. *)
Definition in_cone (h w : Z) (f : flake) : Prop :=
  0 <= fst f < h /\ - fst f <= snd f < w + fst f.

(** The states the program runs through: the width is not negative, the
    intensity is one the commands can reach, every flake is in the
    cone. *)
Definition settled (w : World) : Prop :=
  0 <= width (snow w) /\ 0 <= intensity (snow w) <= 10 /\
  Forall (in_cone (height (snow w)) (width (snow w))) (flakes (snow w)).

(** A generator all of whose draws are [0]: every sample starts with the
    first column and every shimmy goes left. *)
Definition zero_draws (g : Rng) : Prop := forall n : nat, draws g n = O.

(** A flake that survives one more move. *)
Definition stays (h : Z) (f : flake) : Prop := fst f + 1 < h.

#[global] Instance stays_dec (h : Z) (f : flake) : Decision (stays h f) :=
  Z_lt_dec (fst f + 1) h.

(** A field whose tick fails: width 1 at intensity 200, with a flake in
    the last of its three rows. *)
Definition failing_tick_world : World :=
  start (mkSnow 3 1 200 [(2, 0)]) zero_rng [].

(** The default world with three commands, an ["x"] and two lines after
    it on its input. *)
Definition stopping_world : World :=
  default_world ["i"; "h"; "7"; "x"; "d"; "x"]%string.

(** The texts of one frame of a field of [h] rows and [w] columns. *)
Definition frame_texts (h w : Z) (p : list string) : Prop :=
  exists out,
    (p = [out] \/ p = [out; help_text]) /\
    Z.of_nat (length (split_lines out)) = h /\
    Forall (fun l => Z.of_nat (String.length l) = w) (split_lines out).

(** Two frames with a command between them. *)
Definition short_run : list event := [Frame; Line "i"; Frame].

(** The move of a flake when every shimmy goes left. *)
Definition down_left (f : flake) : flake := (fst f + 1, snd f - 1).

#[global] Instance off_grid_dec (h w : Z) (f : flake) : Decision (off_grid h w f).
Proof. unfold off_grid. apply _. Defined.

(** A field of two rows and three columns with a flake in it, one right
    of it and one below it. *)
Definition small_world : World :=
  start (mkSnow 2 3 0 [(1, 2); (0, 5); (4, 1)]) zero_rng [].

(** ** Class [CheckRange] and the parser of [main] *)

(** A [range(start, stop, step)] object. *)
Record Range : Type := mkRange {
  range_start : Z;
  range_stop : Z;
  range_step : Z
}.

(** [v in r] for an integer [v]. *)
Definition range_contains (r : Range) (v : Z) : bool :=
  if 0 <? range_step r then
    (range_start r <=? v) && (v <? range_stop r)
    && ((v - range_start r) mod range_step r =? 0)
  else if range_step r <? 0 then
    (range_stop r <? v) && (v <=? range_start r)
    && ((range_start r - v) mod (- range_step r) =? 0)
  else false.

(** The values the keyword arguments of [add_argument] hold in [main]. *)
Inductive pyval : Type :=
| VInt (n : Z)
| VStr (s : string)
| VRange (r : Range)
| VType (name : string).

(** A [CheckRange] action: its [dest] (which [argparse.Action.__init__]
    sets from the arguments it is handed), its [range], and the keyword
    arguments it hands on to [argparse.Action.__init__]. *)
Record CheckRange : Type := mkCheckRange {
  cr_dest : string;
  cr_range : Range;
  cr_kwargs : gmap string pyval
}.

(** [CheckRange.__init__] *)
Definition CheckRange_init (dest : string) (kwargs : gmap string pyval)
  : result CheckRange :=
  match kwargs !! "range"%string with
  | None => Raise ValueError            (* a range must be specified *)
  | Some (VRange r) => Ok (mkCheckRange dest r (delete "range"%string kwargs))
  | Some _ => Raise ValueError          (* range must be of type range *)
  end.

(** How parsing ends: with a value, or with the [ArgumentError] of an
    action or on an option the parser does not know; on either error
    [argparse] prints the usage and exits. *)
Inductive parse_result (A : Type) : Type :=
| Parsed (a : A)
| ArgumentError (dest : string) (values : Z)
| Unrecognized (name : string).
Arguments Parsed {A} a.
Arguments ArgumentError {A} dest values.
Arguments Unrecognized {A} name.

(** [CheckRange.__call__], on the attributes of the namespace. *)
Definition CheckRange_call (self : CheckRange) (namespace : gmap string Z)
    (values : Z) : parse_result (gmap string Z) :=
  if range_contains (cr_range self) values
  then Parsed (<[cr_dest self := values]> namespace)
  else ArgumentError (cr_dest self) values.

(** The action of an argument: the default one, which stores the value,
    or a [CheckRange]. *)
Inductive action : Type :=
| Store
| Check (a : CheckRange).

Record argument : Type := mkArgument {
  arg_dest : string;
  arg_default : Z;
  arg_action : action
}.

(** The four [add_argument] calls of [main]. *)
Definition main_parser : result (list argument) :=
  match CheckRange_init "tick_rate_ms"
          (list_to_map [("type", VType "int"); ("default", VInt 100);
                        ("range", VRange (mkRange 1 1000 1));
                        ("help", VStr "The tick rate in ms (default: 100).")]%string)
  with
  | Raise e => Raise e
  | Ok tick =>
      match CheckRange_init "intensity"
              (list_to_map [("type", VType "int"); ("default", VInt 2);
                            ("range", VRange (mkRange 0 10 1));
                            ("help", VStr "The intensity of snowfall from 0 to 9")]%string)
      with
      | Raise e => Raise e
      | Ok inten =>
          Ok [mkArgument "tick_rate_ms" 100 (Check tick);
              mkArgument "width" 100 Store;
              mkArgument "height" 30 Store;
              mkArgument "intensity" 2 (Check inten)]
      end
  end.

(** The namespace before any option is read: every default. *)
Definition defaults (p : list argument) : gmap string Z :=
  list_to_map (map (fun a => (arg_dest a, arg_default a)) p).

(** [parse_args] over the options of the command line, each given by the
    [dest] of the argument it names and by its value as [type=int] has
    converted it: the action of each runs in turn. *)
Fixpoint parse_loop (p : list argument) (argv : list (string * Z))
    (namespace : gmap string Z) : parse_result (gmap string Z) :=
  match argv with
  | [] => Parsed namespace
  | (name, v) :: rest =>
      match List.find (fun a => String.eqb (arg_dest a) name) p with
      | None => Unrecognized name
      | Some a =>
          match arg_action a with
          | Store => parse_loop p rest (<[arg_dest a := v]> namespace)
          | Check c =>
              match CheckRange_call c namespace v with
              | Parsed namespace' => parse_loop p rest namespace'
              | ArgumentError d x => ArgumentError d x
              | Unrecognized n => Unrecognized n
              end
          end
      end
  end.

Definition parse_args (p : list argument) (argv : list (string * Z))
  : parse_result (gmap string Z) :=
  parse_loop p argv (defaults p).

(** [main] up to the start of its threads: the world they start in. *)
Definition main_world (argv : list (string * Z)) (g : Rng) (lines : list string)
  : result (parse_result World) :=
  match main_parser with
  | Raise e => Raise e
  | Ok p =>
      Ok match parse_args p argv with
         | Parsed args =>
             Parsed (start (Snow_init (args !!! "height"%string)
                                      (args !!! "width"%string)
                                      (args !!! "intensity"%string)) g lines)
         | ArgumentError d x => ArgumentError d x
         | Unrecognized n => Unrecognized n
         end
  end.

(** The value an option ends with: the last one given for it, or the
    default. *)
Definition option_value (name : string) (default : Z) (argv : list (string * Z)) : Z :=
  foldl (fun acc nv => if String.eqb (fst nv) name then snd nv else acc)
        default argv.

(** What the parser of [main] admits of one option. *)
Definition admitted (nv : string * Z) : Prop :=
  (fst nv = "tick_rate_ms"%string /\ 1 <= snd nv <= 999) \/
  fst nv = "width"%string \/ fst nv = "height"%string \/
  (fst nv = "intensity"%string /\ 0 <= snd nv <= 9).

(** The parser [main] builds, spelled out. *)
Definition main_arguments : list argument :=
  [mkArgument "tick_rate_ms" 100
     (Check (mkCheckRange "tick_rate_ms" (mkRange 1 1000 1)
        (delete "range"%string
           (list_to_map [("type", VType "int"); ("default", VInt 100);
                         ("range", VRange (mkRange 1 1000 1));
                         ("help", VStr "The tick rate in ms (default: 100).")]%string))));
   mkArgument "width" 100 Store;
   mkArgument "height" 30 Store;
   mkArgument "intensity" 2
     (Check (mkCheckRange "intensity" (mkRange 0 10 1)
        (delete "range"%string
           (list_to_map [("type", VType "int"); ("default", VInt 2);
                         ("range", VRange (mkRange 0 10 1));
                         ("help", VStr "The intensity of snowfall from 0 to 9")]%string))))].

(** The namespace after the options of the command line, when each is
    stored. *)
Definition stored (namespace : gmap string Z) (argv : list (string * Z))
  : gmap string Z :=
  foldl (fun ns nv => <[fst nv := snd nv]> ns) namespace argv.

(** A command line: [--width 40 --intensity 3 --height 20 --intensity 7]. *)
Definition some_argv : list (string * Z) :=
  [("width", 40); ("intensity", 3); ("height", 20); ("intensity", 7)]%string.

(** The number of flakes in row [r]. *)
Definition row_count (r : Z) (l : list flake) : nat :=
  length (filter (fun f : flake => fst f = r) l).

(** No row holds more flakes than one tick at the highest intensity
    spawns. *)
Definition sparse (w : World) : Prop :=
  forall r, Z.of_nat (row_count r (flakes (snow w))) <= width (snow w) / 10.

(** * Properties *)

(** ** Running a computation *)

Lemma bind_ok {A B : Type} (m : M A) (k : A -> M B) w a w1 :
  m w = (Ok a, w1) -> bind m k w = k a w1.
Proof. intros E. unfold bind. now rewrite E. Qed.

Lemma bind_raise {A B : Type} (m : M A) (k : A -> M B) w e w1 :
  m w = (Raise e, w1) -> bind m k w = (Raise e, w1).
Proof. intros E. unfold bind. now rewrite E. Qed.

Lemma bind_ok_inv {A B : Type} (m : M A) (k : A -> M B) w b w' :
  bind m k w = (Ok b, w') ->
  exists a w1, m w = (Ok a, w1) /\ k a w1 = (Ok b, w').
Proof.
  unfold bind. destruct (m w) as [[a|e] w1]; intros E.
  - now exists a, w1.
  - discriminate.
Qed.

Lemma only_rng_refl w : only_rng w w.
Proof. now unfold only_rng. Qed.

Lemma only_rng_trans w1 w2 w3 :
  only_rng w1 w2 -> only_rng w2 w3 -> only_rng w1 w3.
Proof. unfold only_rng. intuition congruence. Qed.

Lemma only_rng_with_rng g w : only_rng w (with_rng g w).
Proof. now unfold only_rng. Qed.

Create HintDb snow discriminated.
#[global] Hint Resolve only_rng_refl only_rng_trans only_rng_with_rng : snow.

(** ** Module [random] *)

Lemma randbelow_ok n w :
  (0 < n)%nat ->
  exists j w', randbelow n w = (Ok j, w') /\ (j < n)%nat /\ only_rng w w'.
Proof.
  intros Hn. eexists _, _. split; [reflexivity|]. split.
  - apply Nat.mod_upper_bound. lia.
  - apply only_rng_with_rng.
Qed.

Lemma item_ok {A : Type} (l : list A) i x w :
  l !! i = Some x -> item l i w = (Ok x, w).
Proof. intros E. unfold item. now rewrite E. Qed.

(** The choice of [moved_flakes] never fails and yields one of the three
    offsets. *)
Lemma random_choice_shimmy w :
  exists d w', random_choice [-1; 0; 1] w = (Ok d, w') /\
               (d = -1 \/ d = 0 \/ d = 1) /\ only_rng w w'.
Proof.
  destruct (randbelow_ok 3 w) as (j & w' & E & Hj & Hw); [lia|].
  unfold random_choice. cbn [length].
  rewrite (bind_ok _ _ _ _ _ E).
  destruct j as [|[|[|j]]]; [| | |lia].
  - exists (-1), w'. rewrite (item_ok _ _ (-1)) by reflexivity. auto.
  - exists 0, w'. rewrite (item_ok _ _ 0) by reflexivity. auto.
  - exists 1, w'. rewrite (item_ok _ _ 1) by reflexivity. auto.
Qed.

(** One step of the pool: the items not yet selected are the drawn one
    and those left in the shorter pool. *)
Lemma pool_step (pool : list Z) (m j : nat) (x y : Z) :
  pool !! j = Some x -> pool !! m = Some y -> (j <= m)%nat ->
  take (S m) pool ≡ₚ x :: take m (<[j := y]> pool).
Proof.
  intros Hx Hy Hj.
  rewrite (take_S_r _ _ _ Hy).
  destruct (decide (j = m)) as [->|Hne].
  - assert (x = y) by congruence. subst y.
    rewrite list_insert_id by assumption.
    symmetry. apply Permutation_cons_append.
  - assert (Hlt : (j < m)%nat) by lia.
    rewrite take_insert_lt by assumption.
    assert (Ht : take m pool !! j = Some x).
    { rewrite lookup_take_lt by assumption. assumption. }
    assert (Hlen : (j < length (take m pool))%nat).
    { apply lookup_lt_is_Some. eauto. }
    rewrite insert_take_drop by assumption.
    rewrite <- (take_drop_middle _ _ _ Ht) at 1.
    rewrite <- app_assoc. cbn [app].
    rewrite <- Permutation_middle. apply perm_skip.
    apply Permutation_app_head.
    symmetry. apply Permutation_cons_append.
Qed.

(** The selection loop returns [k] of the first [m] items of the pool, as
    a sub-multiset of them. *)
Lemma sample_pool_ok k : forall (pool : list Z) (m : nat) w,
  (k <= m <= length pool)%nat ->
  exists res w', sample_pool pool m k w = (Ok res, w') /\ only_rng w w' /\
                 length res = k /\ exists rest, take m pool ≡ₚ res ++ rest.
Proof.
  induction k as [|k IH]; intros pool m w Hm.
  - exists [], w. cbn. split; [reflexivity|]. split; [auto with snow|].
    split; [reflexivity|]. now exists (take m pool).
  - destruct m as [|m]; [lia|].
    destruct (randbelow_ok (S m) w) as (j & w1 & Ej & Hj & Hw1); [lia|].
    destruct (lookup_lt_is_Some_2 pool j) as [x Hx]; [lia|].
    destruct (lookup_lt_is_Some_2 pool m) as [y Hy]; [lia|].
    destruct (IH (<[j := y]> pool) m w1) as (res & w' & E & Hw' & Hlen & rest & Hp).
    { rewrite length_insert. lia. }
    exists (x :: res), w'. cbn [sample_pool].
    rewrite (bind_ok _ _ _ _ _ Ej).
    rewrite (bind_ok _ _ _ _ _ (item_ok _ _ _ _ Hx)).
    replace (S m - 1)%nat with m by lia.
    rewrite (bind_ok _ _ _ _ _ (item_ok _ _ _ _ Hy)).
    rewrite (bind_ok _ _ _ _ _ E).
    split; [reflexivity|]. split; [eauto with snow|]. split.
    + cbn. now rewrite Hlen.
    + exists rest. rewrite (pool_step pool m j x y) by (auto; lia).
      cbn. now rewrite Hp.
Qed.

Lemma random_sample_ok (population : list Z) (k : Z) w :
  0 <= k <= Z.of_nat (length population) ->
  exists res w', random_sample population k w = (Ok res, w') /\ only_rng w w' /\
                 length res = Z.to_nat k /\ res ⊆+ population.
Proof.
  intros Hk. unfold random_sample.
  replace ((0 <=? k) && (k <=? Z.of_nat (length population))) with true
    by (symmetry; apply andb_true_iff; split; apply Z.leb_le; lia).
  destruct (sample_pool_ok (Z.to_nat k) population (length population) w)
    as (res & w' & E & Hw & Hlen & rest & Hp); [lia|].
  exists res, w'. split; [assumption|]. split; [assumption|].
  split; [assumption|].
  rewrite firstn_all in Hp. rewrite Hp. apply submseteq_inserts_r. reflexivity.
Qed.

Lemma random_sample_raise (population : list Z) (k : Z) w :
  ~ (0 <= k <= Z.of_nat (length population)) ->
  random_sample population k w = (Raise ValueError, w).
Proof.
  intros Hk. unfold random_sample.
  replace ((0 <=? k) && (k <=? Z.of_nat (length population))) with false; [reflexivity|].
  symmetry. apply andb_false_iff.
  destruct (Z.leb_spec 0 k); [|now left].
  right. apply Z.leb_gt. lia.
Qed.

Lemma NoDup_submseteq_l (l k : list Z) : l ⊆+ k -> NoDup k -> NoDup l.
Proof.
  intros Hsub Hk. apply submseteq_Permutation in Hsub as [rest Hp].
  rewrite Hp in Hk. now apply NoDup_app in Hk as [? _].
Qed.

(** ** Class [Snow] *)

Lemma length_range n : Z.of_nat (length (range n)) = Z.max 0 n.
Proof. unfold range. rewrite length_seqZ. lia. Qed.

(** [new_flakes] returns when the count is one [random.sample] accepts. *)
Lemma new_flakes_ok w :
  0 <= num_flakes (snow w) <= Z.max 0 (width (snow w)) ->
  exists new w', new_flakes w = (Ok new, w') /\ only_rng w w' /\
                 spawned (snow w) new.
Proof.
  intros Hn.
  destruct (random_sample_ok (range (width (snow w))) (num_flakes (snow w)) w)
    as (cols & w' & E & Hw & Hlen & Hsub).
  { rewrite length_range. lia. }
  exists (map (fun col => (0, col)) cols), w'.
  split; [|split; [assumption|]].
  - unfold new_flakes, get_snow. cbn [bind]. rewrite (bind_ok _ _ _ _ _ E).
    reflexivity.
  - unfold spawned. rewrite length_map, Hlen. split; [lia|]. split.
    + apply Forall_forall. intros f Hf.
      apply list_elem_of_fmap in Hf as (col & -> & Hcol). cbn.
      split; [reflexivity|].
      apply (elem_of_submseteq _ _ _ Hcol) in Hsub.
      unfold range in Hsub. apply elem_of_seqZ in Hsub. lia.
    + rewrite map_map. cbn. rewrite map_id.
      apply (NoDup_submseteq_l _ _ Hsub). apply NoDup_seqZ.
Qed.

(** Otherwise it raises [ValueError], and changes nothing. *)
Lemma new_flakes_raise w :
  ~ (0 <= num_flakes (snow w) <= Z.max 0 (width (snow w))) ->
  new_flakes w = (Raise ValueError, w).
Proof.
  intros Hn. unfold new_flakes, get_snow. cbn [bind].
  apply bind_raise. apply random_sample_raise. rewrite length_range. exact Hn.
Qed.

(** No exception but [ValueError] leaves [new_flakes], and any result is
    a spawn. *)
Lemma new_flakes_inv w new w' :
  new_flakes w = (Ok new, w') -> only_rng w w' /\ spawned (snow w) new.
Proof.
  intros E.
  destruct (decide (0 <= num_flakes (snow w) <= Z.max 0 (width (snow w))))
    as [Hn|Hn].
  - destruct (new_flakes_ok w Hn) as (new' & w'' & E' & Hw & Hs).
    rewrite E in E'. injection E' as -> ->. now split.
  - rewrite (new_flakes_raise w Hn) in E. discriminate.
Qed.

(** The count stays within the width as long as the intensity is a
    percentage. *)
Lemma num_flakes_bounds (s : Snow) :
  0 <= width s -> 0 <= intensity s <= 100 -> 0 <= num_flakes s <= width s.
Proof.
  intros Hw Hi. unfold num_flakes, int_div100.
  split.
  - apply Z.quot_pos; nia.
  - apply Z.quot_le_upper_bound; nia.
Qed.

Lemma num_flakes_floor (s : Snow) :
  0 <= width s -> 0 <= intensity s ->
  num_flakes s = width s * intensity s / 100.
Proof.
  intros Hw Hi. unfold num_flakes, int_div100.
  apply Z.quot_div_nonneg; nia.
Qed.

(** *** The count through the double *)

Lemma round_half_even_cases (n d : Z) :
  round_half_even n d = n / d \/
  (round_half_even n d = n / d + 1 /\ d <= 2 * (n mod d)).
Proof.
  unfold round_half_even.
  destruct (Z.ltb_spec (2 * (n mod d)) d); [now left|].
  destruct (Z.ltb_spec d (2 * (n mod d))); [right; lia|].
  destruct (Z.even (n / d)); [now left | right; lia].
Qed.

(** Rounding at a scale finer than a fiftieth never reaches the next
    integer. *)
Lemma round_scaled_div100 (n P : Z) :
  0 <= n -> 50 < P ->
  round_half_even (n * P) 100 / P = n / 100.
Proof.
  intros Hn HP.
  pose proof (Z.div_mod n 100 ltac:(lia)) as En.
  pose proof (Z.mod_pos_bound n 100 ltac:(lia)) as Hr.
  pose proof (Z.div_mod (n * P) 100 ltac:(lia)) as Em.
  pose proof (Z.mod_pos_bound (n * P) 100 ltac:(lia)) as Hr'.
  pose proof (round_half_even_cases (n * P) 100) as Hm.
  revert En Hr Em Hr' Hm.
  generalize (round_half_even (n * P) 100) (n * P / 100) ((n * P) mod 100)
             (n / 100) (n mod 100).
  intros m q r' k r En Hr Em Hr' Hm.
  symmetry. apply Z.div_unique_pos with (r := m - k * P); [|lia].
  destruct Hm as [-> | [-> Hup]]; nia.
Qed.

(** Below [2^53] the double division of the code gives the exact
    truncated quotient. *)
Lemma double_int_div100_exact (a : Z) :
  Z.abs a < 2 ^ 53 -> double_int_div100 a = Some (int_div100 a).
Proof.
  intros Ha. unfold double_int_div100, int_div100.
  destruct (Z.eqb_spec a 0) as [->|Hne]; [reflexivity|].
  unfold double_quotient100.
  assert (Hpos : 0 < Z.abs a) by lia.
  assert (Hlog : Z.log2 (Z.abs a) < 53) by (apply Z.log2_lt_pow2; lia).
  pose proof (Z.log2_nonneg (Z.abs a)) as Hlog0.
  set (s0 := 59 - Z.log2 (Z.abs a)).
  assert (Hs0 : 7 <= s0) by (unfold s0; lia).
  destruct (Z.leb_spec 0 s0) as [_|]; [|lia].
  set (s := if 100 * 2 ^ 53 <=? Z.abs a * 2 ^ s0 then s0 - 1 else s0).
  assert (Hs : 6 <= s) by (unfold s; destruct (_ <=? _); lia).
  destruct (Z.leb_spec 0 s) as [_|]; [|lia].
  destruct (Z.leb_spec 0 (- s)) as [|_]; [lia|].
  change (2 ^ 1024 <=? 0) with false. cbv iota.
  rewrite Z.opp_involutive.
  assert (HP : 50 < 2 ^ s).
  { apply Z.lt_le_trans with (2 ^ 6); [reflexivity|].
    apply Z.pow_le_mono_r; lia. }
  rewrite round_scaled_div100 by lia.
  f_equal. rewrite (Z.quot_div a 100) by lia.
  change (Z.sgn 100) with 1. change (Z.abs 100) with 100. lia.
Qed.

(** Beyond [2^53] it need not: the double can round up to the next
    integer. *)
Lemma double_int_div100_rounds_up :
  double_int_div100 ((2 ^ 53 + 3) * 100) = Some (2 ^ 53 + 4) /\
  int_div100 ((2 ^ 53 + 3) * 100) = 2 ^ 53 + 3 /\
  double_int_div100 14073748835532899 = Some (2 ^ 47 + 1) /\
  int_div100 14073748835532899 = 2 ^ 47.
Proof. repeat split; vm_compute; reflexivity. Qed.

(** The count of [new_flakes] is the count the code computes, while the
    product stays below [2^53]. *)
Lemma num_flakes_double (s : Snow) :
  0 <= width s * intensity s < 2 ^ 53 ->
  double_int_div100 (width s * intensity s) = Some (num_flakes s).
Proof.
  intros H. unfold num_flakes. apply double_int_div100_exact. lia.
Qed.

Lemma moved_flakes_ok (fl : list flake) : forall w,
  exists moved w', moved_flakes fl w = (Ok moved, w') /\ only_rng w w' /\
                   Forall2 shimmied fl moved.
Proof.
  induction fl as [|[row col] rest IH]; intros w.
  - exists [], w. cbn. auto using only_rng_refl.
  - destruct (random_choice_shimmy w) as (d & w1 & Ed & Hd & Hw1).
    destruct (IH w1) as (rest' & w' & E & Hw' & Hall).
    exists ((row + 1, col + d) :: rest'), w'. cbn [moved_flakes].
    rewrite (bind_ok _ _ _ _ _ Ed), (bind_ok _ _ _ _ _ E).
    split; [reflexivity|]. split; [eauto with snow|].
    constructor; [|assumption]. now exists d.
Qed.

(** [update_flakes] step by step: the move always succeeds; the rest
    follows [new_flakes]. *)
Lemma update_flakes_run w :
  exists moved w1,
    only_rng w w1 /\ Forall2 shimmied (flakes (snow w)) moved /\
    update_flakes w =
      match new_flakes (after_move moved w1) with
      | (Ok new, w2) =>
          (Ok tt,
           with_snow (with_flakes
                        (filter (in_rows (height (snow w2))) (moved ++ new))
                        (snow w2)) w2)
      | (Raise e, w2) => (Raise e, w2)
      end.
Proof.
  destruct (moved_flakes_ok (flakes (snow w)) w) as (moved & w1 & E & Hw1 & Hall).
  exists moved, w1. split; [assumption|]. split; [assumption|].
  unfold update_flakes, get_snow, set_flakes, bind.
  rewrite E. fold (after_move moved w1).
  destruct (new_flakes (after_move moved w1)) as [[new|e] w2]; reflexivity.
Qed.

(** A tick that completes: the flakes are the moved ones and the new
    ones, less those whose row is not below the height; nothing else
    of the field or of the control state changes. *)
Lemma update_flakes_inv w w' :
  update_flakes w = (Ok tt, w') ->
  exists moved new,
    Forall2 shimmied (flakes (snow w)) moved /\ spawned (snow w) new /\
    snow w' = with_flakes (filter (in_rows (height (snow w))) (moved ++ new))
                          (snow w) /\
    running w' = running w /\ display_help w' = display_help w /\
    stdin w' = stdin w.
Proof.
  intros E.
  destruct (update_flakes_run w) as (moved & w1 & (Hs1 & Hr1 & Hd1 & Hi1) & Hall & Erun).
  rewrite Erun in E. clear Erun.
  destruct (new_flakes (after_move moved w1)) as [[new|e] w2] eqn:En; [|discriminate].
  apply new_flakes_inv in En as [(Hs2 & Hr2 & Hd2 & Hi2) Hsp].
  injection E as <-. exists moved, new.
  cbn in Hs2, Hr2, Hd2, Hi2, Hsp |- *.
  rewrite Hs2, Hs1 in *. cbn.
  repeat split; try congruence; try assumption.
  all: try apply Hsp.
Qed.

(** A tick completes when the count is one [random.sample] accepts. *)
Lemma update_flakes_ok w :
  0 <= num_flakes (snow w) <= Z.max 0 (width (snow w)) ->
  exists w', update_flakes w = (Ok tt, w').
Proof.
  intros Hn.
  destruct (update_flakes_run w) as (moved & w1 & (Hs1 & _) & _ & Erun).
  rewrite Erun.
  destruct (new_flakes_ok (after_move moved w1)) as (new & w2 & En & _).
  { cbn. rewrite Hs1. exact Hn. }
  rewrite En. eauto.
Qed.

(** Otherwise the exception of [new_flakes] leaves the tick after the
    move and before the removal. *)
Lemma update_flakes_raise w :
  ~ (0 <= num_flakes (snow w) <= Z.max 0 (width (snow w))) ->
  exists moved w',
    update_flakes w = (Raise ValueError, w') /\
    Forall2 shimmied (flakes (snow w)) moved /\ flakes (snow w') = moved.
Proof.
  intros Hn.
  destruct (update_flakes_run w) as (moved & w1 & (Hs1 & _) & Hall & Erun).
  rewrite Erun.
  rewrite (new_flakes_raise (after_move moved w1)).
  - exists moved, (after_move moved w1). auto.
  - cbn. rewrite Hs1. exact Hn.
Qed.

(** ** The input thread *)

Lemma is_digit_value (c : ascii) :
  is_digit c = true -> 0 <= Z.of_nat (nat_of_ascii c) - 48 <= 9.
Proof.
  unfold is_digit. cbv zeta. intros H.
  apply andb_true_iff in H as [H1 H2].
  apply Nat.leb_le in H1, H2. lia.
Qed.




(** What one line can do: it never raises, it touches neither the size
    of the field nor its flakes, generator or input, it stops the
    program only when it is ["x"], and it keeps the intensity within
    [0 .. 10]. *)
Lemma handle_input_ok (s : string) w :
  exists w',
    handle_input s w = (Ok tt, w') /\
    height (snow w') = height (snow w) /\ width (snow w') = width (snow w) /\
    flakes (snow w') = flakes (snow w) /\ rng w' = rng w /\ stdin w' = stdin w /\
    (s <> "x"%string -> running w' = running w) /\
    (0 <= intensity (snow w) <= 10 -> 0 <= intensity (snow w') <= 10).
Proof.
  unfold handle_input.
  destruct (String.eqb_spec s "x"); [eexists; split; [reflexivity|]; cbn; intuition lia|].
  destruct (String.eqb_spec s "i"); [eexists; split; [reflexivity|]; cbn; intuition lia|].
  destruct (String.eqb_spec s "d"); [eexists; split; [reflexivity|]; cbn; intuition lia|].
  destruct (String.eqb_spec s "h"); [eexists; split; [reflexivity|]; cbn; intuition lia|].
  destruct s as [|c [|c' s']];
    try (eexists; split; [reflexivity|]; cbn; intuition lia).
  cbn [String.length Nat.eqb andb re_match_digit].
  destruct (is_digit c) eqn:Hc;
    [|eexists; split; [reflexivity|]; cbn; intuition lia].
  pose proof (is_digit_value c Hc) as Hv.
  unfold int_of_str, bind. cbn [int_digits]. rewrite Hc.
  eexists; split; [reflexivity|]. cbn. intuition lia.
Qed.

(** The loop keeps the size of the field and the intensity bound,
    however it ends. *)
Lemma input_loop_intensity (lines : list string) : forall w r w',
  input_loop lines w = (r, w') ->
  0 <= intensity (snow w) <= 10 ->
  width (snow w') = width (snow w) /\ 0 <= intensity (snow w') <= 10.
Proof.
  induction lines as [|s rest IH]; intros w r w' E Hi; cbn [input_loop] in E.
  - destruct (running w); injection E as <- <-; auto.
  - destruct (running w); [|injection E as <- <-; auto].
    destruct (handle_input_ok s (with_stdin rest w))
      as (w1 & E1 & _ & Hw & _ & _ & _ & _ & Hb).
    rewrite (bind_ok _ _ _ _ _ E1) in E.
    apply IH in E as [Hw' Hi']; [|now apply Hb].
    split; [|assumption]. rewrite Hw', Hw. reflexivity.
Qed.

(** With no ["x"] among the lines the loop reads to the end of the input
    and leaves by the [EOFError] of [input()], still [running]. *)
Lemma input_loop_eof (lines : list string) : forall w,
  running w = true -> "x"%string ∉ lines -> stdin w = lines ->
  exists w', input_loop lines w = (Raise EOFError, w') /\
             running w' = true /\ stdin w' = [].
Proof.
  induction lines as [|s rest IH]; intros w Hr Hx Hin; cbn [input_loop]; rewrite Hr.
  - exists w. auto.
  - destruct (handle_input_ok s (with_stdin rest w))
      as (w1 & E1 & _ & _ & _ & _ & Hin1 & Hr1 & _).
    rewrite (bind_ok _ _ _ _ _ E1).
    apply IH.
    + rewrite Hr1; [exact Hr|]. intros ->. apply Hx. left.
    + intros H. apply Hx. now right.
    + rewrite Hin1. reflexivity.
Qed.

(** The line ["x"] ends the loop, with [running] false and the lines
    after it unread. *)
Lemma input_loop_stop (rest : list string) w :
  running w = true ->
  input_loop ("x"%string :: rest) w = (Ok tt, with_running false (with_stdin rest w)).
Proof.
  intros Hr. cbn [input_loop]. rewrite Hr.
  unfold bind, handle_input. cbn [String.eqb Ascii.eqb Bool.eqb].
  destruct rest; reflexivity.
Qed.

(** * The claims *)

(** ** Spawning *)

Lemma spawned_rows (s : Snow) (new : list flake) :
  spawned s new -> Forall (fun f => fst f = 0) new.
Proof.
  intros (_ & Hall & _). eapply Forall_impl; [exact Hall|]. now intros f [? _].
Qed.

Lemma filter_in_rows_all (h : Z) (l : list flake) :
  Forall (fun f => fst f < h) l -> filter (in_rows h) l = l.
Proof.
  induction 1 as [|f l Hf _ IH]; [reflexivity|].
  rewrite filter_cons_True by exact Hf. now rewrite IH.
Qed.

(** A tick from an empty field leaves exactly the new flakes, when the
    field has a row to hold them. *)
Lemma update_flakes_from_empty w w' :
  flakes (snow w) = [] -> 0 < height (snow w) ->
  update_flakes w = (Ok tt, w') ->
  spawned (snow w) (flakes (snow w')).
Proof.
  intros Hnil Hh E.
  apply update_flakes_inv in E as (moved & new & Hall & Hsp & Hs & _).
  rewrite Hnil in Hall. apply Forall2_nil_inv_l in Hall as ->.
  rewrite Hs. cbn [with_flakes flakes app].
  rewrite filter_in_rows_all; [assumption|].
  eapply Forall_impl; [exact (spawned_rows _ _ Hsp)|].
  intros f Hf. cbn beta in Hf. rewrite Hf. exact Hh.
Qed.

(** C1, as the code has it: for every width > 0 and every non-negative
    intensity with [width * intensity < 2^53], where the double division
    of the code is exact, [new_flakes] does not clamp its count.  While
    the count [num_flakes] is at most the width, which it is for every
    intensity up to 100, it returns exactly that many flakes, all at
    row 0, and one tick from an empty flake collection of a field with a
    row does not raise and leaves exactly that many flakes, all at row 0.
    When the count exceeds the width, [new_flakes] raises
    [ValueError]. *)
Theorem new_flakes_no_clamp (w : World) :
  0 < width (snow w) -> 0 <= intensity (snow w) ->
  width (snow w) * intensity (snow w) < 2 ^ 53 ->
  (intensity (snow w) <= 100 -> num_flakes (snow w) <= width (snow w)) /\
  (num_flakes (snow w) <= width (snow w) ->
     (exists new w', new_flakes w = (Ok new, w') /\
                     Z.of_nat (length new) = num_flakes (snow w) /\
                     Forall (fun f => fst f = 0) new) /\
     (flakes (snow w) = [] -> 0 < height (snow w) ->
      exists w', update_flakes w = (Ok tt, w') /\
                 Z.of_nat (length (flakes (snow w'))) = num_flakes (snow w) /\
                 Forall (fun f => fst f = 0) (flakes (snow w')))) /\
  (width (snow w) < num_flakes (snow w) -> new_flakes w = (Raise ValueError, w)).
Proof.
  intros Hw Hi _.
  assert (H0 : 0 <= num_flakes (snow w)).
  { unfold num_flakes, int_div100. apply Z.quot_pos; nia. }
  split; [|split].
  - intros Hi'. apply num_flakes_bounds; lia.
  - intros Hn.
    assert (Hr : 0 <= num_flakes (snow w) <= Z.max 0 (width (snow w))) by lia.
    split.
    + destruct (new_flakes_ok w Hr) as (new & w' & E & _ & Hsp).
      exists new, w'. split; [exact E|]. split; [apply Hsp|].
      exact (spawned_rows _ _ Hsp).
    + intros Hnil Hh. destruct (update_flakes_ok w Hr) as (w' & E).
      exists w'. split; [exact E|].
      pose proof (update_flakes_from_empty w w' Hnil Hh E) as Hsp.
      split; [apply Hsp|]. exact (spawned_rows _ _ Hsp).
  - intros Hn. apply new_flakes_raise. lia.
Qed.

Lemma new_flakes_no_clamp_witness :
  0 < 5 /\ 0 <= 100 /\ 5 * 100 < 2 ^ 53 /\
  exists w', update_flakes pathological = (Ok tt, w') /\
             Z.of_nat (length (flakes (snow w'))) = 5 /\
             Forall (fun f => fst f = 0) (flakes (snow w')).
Proof.
  split; [lia|]. split; [lia|]. split; [reflexivity|].
  destruct (new_flakes_no_clamp pathological) as (_ & H & _);
    [cbn; lia | cbn; lia | reflexivity |].
  destruct H as [_ H]; [vm_compute; discriminate|].
  apply H; [reflexivity | cbn; lia].
Defined.

(** C1 as stated fails: at width 1 and intensity 200 the count is 2, and
    [new_flakes] raises instead of returning at most one flake. *)
Lemma new_flakes_overflow_raises :
  0 < width (Snow_init 3 1 200) /\ 0 <= intensity (Snow_init 3 1 200) /\
  new_flakes (start (Snow_init 3 1 200) zero_rng []) =
    (Raise ValueError, start (Snow_init 3 1 200) zero_rng []).
Proof. split; [cbn; lia|]. split; [cbn; lia|]. reflexivity. Qed.

(** C6, as the code has it: for every width and intensity that are not
    negative, with [width * intensity < 2^53], where the double division
    of the code is exact, whatever [new_flakes] returns is exactly
    [floor(width * intensity / 100)] flakes, all at row 0, their columns
    pairwise distinct and within [0, width), so never more than [width]
    of them; it does return whenever that count is at most the width,
    and raises [ValueError] when the count exceeds it. *)
Theorem new_flakes_sample (w : World) :
  0 <= width (snow w) -> 0 <= intensity (snow w) ->
  width (snow w) * intensity (snow w) < 2 ^ 53 ->
  (forall new w', new_flakes w = (Ok new, w') ->
     Z.of_nat (length new) = width (snow w) * intensity (snow w) / 100 /\
     Forall (fun f => fst f = 0 /\ 0 <= snd f < width (snow w)) new /\
     NoDup (map snd new) /\
     Z.of_nat (length new) <= width (snow w)) /\
  (width (snow w) * intensity (snow w) / 100 <= width (snow w) ->
     exists new w', new_flakes w = (Ok new, w')) /\
  (width (snow w) < width (snow w) * intensity (snow w) / 100 ->
     new_flakes w = (Raise ValueError, w)).
Proof.
  intros Hw Hi _. rewrite <- (num_flakes_floor (snow w) Hw Hi).
  assert (H0 : 0 <= num_flakes (snow w)).
  { unfold num_flakes, int_div100. apply Z.quot_pos; nia. }
  split; [|split].
  - intros new w' E.
    destruct (decide (0 <= num_flakes (snow w) <= Z.max 0 (width (snow w))))
      as [Hn|Hn].
    + apply new_flakes_inv in E as [_ (Hlen & Hall & Hnd)].
      repeat split; try assumption. lia.
    + rewrite (new_flakes_raise w Hn) in E. discriminate.
  - intros Hn. destruct (new_flakes_ok w) as (new & w' & E & _); [lia|].
    now exists new, w'.
  - intros Hn. apply new_flakes_raise. lia.
Qed.

Lemma new_flakes_sample_witness :
  0 <= 100 /\ 0 <= 5 /\ 100 * 5 < 2 ^ 53 /\
  exists new w', new_flakes (start (Snow_init 30 100 5) zero_rng []) = (Ok new, w') /\
                 Z.of_nat (length new) = 5 /\ NoDup (map snd new).
Proof.
  split; [lia|]. split; [lia|]. split; [reflexivity|].
  destruct (new_flakes_sample (start (Snow_init 30 100 5) zero_rng []))
    as (Hret & Hok & _); [cbn; lia | cbn; lia | reflexivity |].
  destruct Hok as (new & w' & E); [vm_compute; discriminate|].
  exists new, w'. split; [exact E|].
  destruct (Hret new w' E) as (Hlen & _ & Hnd & _).
  split; [exact Hlen | exact Hnd].
Defined.

(** C6 as stated fails: at width 100 and intensity 101 the count is 101,
    and [new_flakes] returns no list of 101 flakes: it raises. *)
Lemma new_flakes_count_over_width :
  100 * 101 / 100 = 101 /\
  new_flakes (start (Snow_init 30 100 101) zero_rng []) =
    (Raise ValueError, start (Snow_init 30 100 101) zero_rng []).
Proof. split; reflexivity. Qed.

(** ** Moving *)

(** C7: for every flake list, [moved_flakes] returns a list of the same
    length, and each flake of it is (row + 1, column + d) of the flake
    at the same place of the input, with d one of -1, 0, +1. *)
Theorem moved_flakes_shimmies (fl : list flake) (w : World) :
  exists moved w',
    moved_flakes fl w = (Ok moved, w') /\ length moved = length fl /\
    Forall2 (fun f f' => exists d, (d = -1 \/ d = 0 \/ d = 1) /\
                                   f' = (fst f + 1, snd f + d)) fl moved.
Proof.
  destruct (moved_flakes_ok fl w) as (moved & w' & E & _ & Hall).
  exists moved, w'. split; [exact E|]. split; [|exact Hall].
  symmetry. exact (Forall2_length _ _ _ Hall).
Qed.

(** ** The tick *)

(** A flake one row above the bottom moves to row [height], whatever its
    shimmy. *)
Lemma shimmied_last_row (h c : Z) (f' : flake) :
  shimmied (h - 1, c) f' -> ~ in_rows h f'.
Proof. intros (d & _ & ->). unfold in_rows. cbn. lia. Qed.

(** C4: after [update_flakes] completes, every flake left has its row
    below the height; and a flake that stood at (height - 1, c) is gone
    after this one tick: what is left are the survivors of the other
    flakes and of the new ones. *)
Theorem update_flakes_rows_below_height (w w' : World) :
  update_flakes w = (Ok tt, w') ->
  Forall (fun f => fst f < height (snow w')) (flakes (snow w')) /\
  forall l1 c l2,
    flakes (snow w) = l1 ++ (height (snow w) - 1, c) :: l2 ->
    exists m1 m2 new,
      Forall2 shimmied l1 m1 /\ Forall2 shimmied l2 m2 /\
      Forall (fun f => fst f = 0) new /\
      flakes (snow w') = filter (in_rows (height (snow w))) (m1 ++ m2 ++ new).
Proof.
  intros E.
  apply update_flakes_inv in E as (moved & new & Hall & Hsp & Hs & _).
  rewrite Hs. cbn [with_flakes flakes height]. split.
  - apply Forall_forall. intros f Hf.
    apply list_elem_of_filter in Hf as [Hf _]. exact Hf.
  - intros l1 c l2 Hfl. rewrite Hfl in Hall.
    apply Forall2_app_inv_l in Hall as (m1 & m2' & H1 & H2 & ->).
    apply Forall2_cons_inv_l in H2 as (f' & m2 & Hf' & H2 & ->).
    exists m1, m2, new. split; [exact H1|]. split; [exact H2|].
    split; [exact (spawned_rows _ _ Hsp)|].
    rewrite <- !app_assoc, !filter_app. cbn [app].
    rewrite filter_cons_False by exact (shimmied_last_row _ _ _ Hf').
    reflexivity.
Qed.

Lemma update_flakes_rows_below_height_witness :
  update_flakes last_row_world = (Ok tt, snd (update_flakes last_row_world)) /\
  Forall (fun f => fst f < 3) (flakes (snow (snd (update_flakes last_row_world)))).
Proof.
  assert (E : update_flakes last_row_world
              = (Ok tt, snd (update_flakes last_row_world)))
    by (vm_compute; reflexivity).
  split; [exact E|].
  exact (proj1 (update_flakes_rows_below_height _ _ E)).
Defined.

(** C9: [update_flakes] removes by row alone.  What a tick that completes
    leaves is the moved and the new flakes filtered by [row < height]:
    each of them with its row below the height is kept, whatever its
    column, and one that is dropped has its row at or beyond the height.
    So a flake whose move leaves it above the bottom is kept, in
    whichever column it lands, inside [0, width) or not. *)
Theorem update_flakes_removes_by_row_only (w w' : World) :
  update_flakes w = (Ok tt, w') ->
  exists moved new,
    Forall2 shimmied (flakes (snow w)) moved /\
    Forall (fun f => fst f = 0) new /\
    flakes (snow w') = filter (fun f => fst f < height (snow w)) (moved ++ new) /\
    (forall row col, (row, col) ∈ moved ++ new -> row < height (snow w) ->
                     (row, col) ∈ flakes (snow w')) /\
    (forall f, f ∈ moved ++ new -> f ∉ flakes (snow w') ->
               height (snow w) <= fst f) /\
    (forall row col, (row, col) ∈ flakes (snow w) -> row + 1 < height (snow w) ->
       exists d, (d = -1 \/ d = 0 \/ d = 1) /\
                 (row + 1, col + d) ∈ flakes (snow w')).
Proof.
  intros E.
  apply update_flakes_inv in E as (moved & new & Hall & Hsp & Hs & _).
  exists moved, new. rewrite Hs. cbn [with_flakes flakes].
  split; [exact Hall|]. split; [exact (spawned_rows _ _ Hsp)|].
  split; [reflexivity|].
  assert (Hkeep : forall row col, (row, col) ∈ moved ++ new ->
                    row < height (snow w) ->
                    (row, col) ∈ filter (in_rows (height (snow w))) (moved ++ new)).
  { intros row col Hin Hrow. apply list_elem_of_filter. now split. }
  split; [exact Hkeep|]. split.
  - intros [row col] Hin Hout. cbn.
    destruct (Z_lt_dec row (height (snow w))) as [Hlt|]; [|lia].
    destruct Hout. now apply Hkeep.
  - intros row col Hin Hrow.
    apply list_elem_of_lookup in Hin as [i Hi].
    destruct (Forall2_lookup_l _ _ _ _ _ Hall Hi) as (f' & Hf' & d & Hd & ->).
    exists d. split; [exact Hd|]. cbn [fst snd].
    apply Hkeep; [|exact Hrow].
    apply elem_of_app. left. apply list_elem_of_lookup. now exists i.
Qed.

Lemma update_flakes_removes_by_row_only_witness :
  update_flakes drifted_world = (Ok tt, snd (update_flakes drifted_world)) /\
  exists d, (d = -1 \/ d = 0 \/ d = 1) /\
            (0 + 1, -7 + d) ∈ flakes (snow (snd (update_flakes drifted_world))).
Proof.
  assert (E : update_flakes drifted_world
              = (Ok tt, snd (update_flakes drifted_world)))
    by (vm_compute; reflexivity).
  split; [exact E|].
  destruct (update_flakes_removes_by_row_only _ _ E)
    as (moved & new & _ & _ & _ & _ & _ & H).
  apply (H 0 (-7)); [left | cbn; lia].
Defined.

(** ** Commands *)



(** ** End of input *)

(** C3, as the code has it: when the read of [user_input_handler] meets
    the end of the input, no ["x"] having come, [input()] raises
    [EOFError], which nothing catches: the loop ends by that exception
    and [running] is still true, so the stop flag is not set. *)
Theorem user_input_handler_eof (w : World) :
  running w = true -> "x"%string ∉ stdin w ->
  exists w', user_input_handler w = (Raise EOFError, w') /\
             running w' = true /\ stdin w' = [].
Proof.
  intros Hr Hx. unfold user_input_handler. now apply input_loop_eof.
Qed.

Lemma user_input_handler_eof_witness :
  running (default_world ["i"; "7"; ""; "h"]%string) = true /\
  exists w', user_input_handler (default_world ["i"; "7"; ""; "h"]%string)
               = (Raise EOFError, w') /\
             running w' = true /\ stdin w' = [].
Proof.
  split; [reflexivity|].
  apply (user_input_handler_eof (default_world ["i"; "7"; ""; "h"]%string)).
  - reflexivity.
  - cbn. intros H. repeat (apply elem_of_cons in H as [H|H]; [discriminate H|]).
    now apply elem_of_nil in H.
Defined.

(** C3 as stated fails: at once at the end of the input the handler ends
    by [EOFError] with [running] true, while on ["x"] it returns with
    [running] false. *)
Lemma eof_is_not_x :
  user_input_handler (default_world []) = (Raise EOFError, default_world []) /\
  running (default_world []) = true /\
  user_input_handler (default_world ["x"%string])
    = (Ok tt, with_running false (default_world [])).
Proof. repeat split. Qed.

(** ** The reachable intensities *)

(** C10: from an intensity in [0, 9], one command, whichever it is, and
    the input loop on any lines, however it ends, leave the intensity in
    [0, 10]; and there the count [num_flakes] is at most the width and
    at most the number of columns [new_flakes] samples from, so it
    returns its sample. *)
Theorem reachable_intensity_sample_defined (w : World) :
  0 <= width (snow w) -> 0 <= intensity (snow w) <= 9 ->
  (forall s r w', handle_input s w = (r, w') ->
                  0 <= intensity (snow w') <= 10) /\
  (forall lines r w', input_loop lines w = (r, w') ->
     0 <= intensity (snow w') <= 10 /\
     num_flakes (snow w') <= width (snow w') /\
     sample_defined (snow w') /\
     exists new w'', new_flakes w' = (Ok new, w'') /\ spawned (snow w') new).
Proof.
  intros Hw Hi. split.
  - intros s r w' E.
    destruct (handle_input_ok s w) as (w1 & E1 & _ & _ & _ & _ & _ & _ & Hb).
    rewrite E1 in E. injection E as _ <-. apply Hb. lia.
  - intros lines r w' E.
    destruct (input_loop_intensity lines w r w' E) as [Hw' Hi']; [lia|].
    assert (Hn : 0 <= num_flakes (snow w') <= width (snow w')).
    { apply num_flakes_bounds; lia. }
    split; [exact Hi'|]. split; [lia|]. split.
    + unfold sample_defined. rewrite length_range. lia.
    + destruct (new_flakes_ok w') as (new & w'' & En & _ & Hsp); [lia|].
      now exists new, w''.
Qed.

Lemma reachable_intensity_sample_defined_witness :
  0 <= width (snow busiest_world) /\
  0 <= intensity (snow busiest_world) <= 9 /\
  intensity (snow (snd (input_loop ["i"%string] busiest_world))) = 10 /\
  num_flakes (snow (snd (input_loop ["i"%string] busiest_world)))
    <= width (snow (snd (input_loop ["i"%string] busiest_world))).
Proof.
  assert (Hw : 0 <= width (snow busiest_world)) by (cbn; lia).
  assert (Hi : 0 <= intensity (snow busiest_world) <= 9) by (cbn; lia).
  split; [exact Hw|]. split; [exact Hi|]. split; [reflexivity|].
  destruct (reachable_intensity_sample_defined busiest_world Hw Hi) as [_ H].
  destruct (H ["i"%string] (fst (input_loop ["i"%string] busiest_world))
              (snd (input_loop ["i"%string] busiest_world)))
    as (_ & Hn & _); [reflexivity|exact Hn].
Defined.

(** ** Rendering *)

Lemma py_index_lt (n : nat) (i : Z) (j : nat) :
  py_index n i = Some j -> (j < n)%nat.
Proof.
  unfold py_index.
  destruct ((0 <=? i) && (i <? Z.of_nat n)) eqn:E1.
  - intros [= <-]. apply andb_true_iff in E1 as [H1 H2].
    apply Z.leb_le in H1. apply Z.ltb_lt in H2. lia.
  - destruct ((- Z.of_nat n <=? i) && (i <? 0)) eqn:E2; [|discriminate].
    intros [= <-]. apply andb_true_iff in E2 as [H1 H2].
    apply Z.leb_le in H1. apply Z.ltb_lt in H2. lia.
Qed.

Lemma py_index_in_range (n : nat) (i : Z) :
  - Z.of_nat n <= i < Z.of_nat n -> exists j, py_index n i = Some j.
Proof.
  intros Hi. unfold py_index.
  destruct ((0 <=? i) && (i <? Z.of_nat n)) eqn:E1; [eauto|].
  destruct ((- Z.of_nat n <=? i) && (i <? 0)) eqn:E2; [eauto|].
  apply andb_false_iff in E1, E2.
  rewrite Z.leb_gt, Z.ltb_ge in E1, E2. lia.
Qed.

Lemma py_index_out_of_range (n : nat) (i : Z) :
  i < - Z.of_nat n \/ Z.of_nat n <= i -> py_index n i = None.
Proof.
  intros Hi. unfold py_index.
  destruct ((0 <=? i) && (i <? Z.of_nat n)) eqn:E1.
  { apply andb_true_iff in E1 as [H1 H2].
    apply Z.leb_le in H1. apply Z.ltb_lt in H2. lia. }
  destruct ((- Z.of_nat n <=? i) && (i <? 0)) eqn:E2; [|reflexivity].
  apply andb_true_iff in E2 as [H1 H2].
  apply Z.leb_le in H1. apply Z.ltb_lt in H2. lia.
Qed.

(** A wrapped index counts from the back. *)
Lemma py_index_negative (n : nat) (i : Z) :
  - Z.of_nat n <= i < 0 -> py_index n i = Some (Z.to_nat (Z.of_nat n + i)).
Proof.
  intros Hi. unfold py_index.
  replace ((0 <=? i) && (i <? Z.of_nat n)) with false.
  - replace ((- Z.of_nat n <=? i) && (i <? 0)) with true; [reflexivity|].
    symmetry. apply andb_true_iff. rewrite Z.leb_le, Z.ltb_lt. lia.
  - symmetry. apply andb_false_iff. left. apply Z.leb_gt. lia.
Qed.

Lemma mark_step (g : grid) (row col : Z) {A : Type} (k : grid -> M A) w :
  (r <- getitem g row ;; r' <- setitem r col marker ;;
   g' <- setitem g row r' ;; k g') w =
  match mark_cell g row col with
  | Some g' => k g' w
  | None => (Raise IndexError, w)
  end.
Proof.
  unfold mark_cell, getitem, setitem, bind.
  destruct (py_index (length g) row) as [i|] eqn:Ei; [|reflexivity].
  destruct (lookup_lt_is_Some_2 g i (py_index_lt _ _ _ Ei)) as [r Hr].
  rewrite (item_ok _ _ _ _ Hr), Hr.
  destruct (py_index (length r) col) as [j|]; reflexivity.
Qed.

Lemma blank_grid_shaped (h w : Z) :
  shaped (Z.to_nat h) (Z.to_nat w) (blank_grid h w).
Proof.
  unfold shaped, blank_grid. split; [apply length_replicate|].
  apply Forall_replicate. split; [apply length_replicate|].
  apply Forall_replicate. now left.
Qed.

Lemma mark_cell_shaped (h w : nat) (g g' : grid) (row col : Z) :
  shaped h w g -> mark_cell g row col = Some g' -> shaped h w g'.
Proof.
  intros [Hlen Hrows] E. unfold mark_cell in E.
  destruct (py_index (length g) row) as [i|]; [|discriminate].
  destruct (g !! i) as [r|] eqn:Hr; [|discriminate].
  destruct (py_index (length r) col) as [j|]; [|discriminate].
  injection E as <-. split; [now rewrite length_insert|].
  apply Forall_insert; [exact Hrows|].
  destruct (proj1 (Forall_lookup _ _) Hrows _ _ Hr) as [Hr1 Hr2].
  split; [now rewrite length_insert|].
  apply Forall_insert; [exact Hr2|]. now right.
Qed.

(** When the assignment is in range, on a grid of [h] rows of [w] cells. *)
Lemma mark_cell_defined (h w : nat) (g : grid) (row col : Z) :
  shaped h w g ->
  - Z.of_nat h <= row < Z.of_nat h -> - Z.of_nat w <= col < Z.of_nat w ->
  exists g', mark_cell g row col = Some g'.
Proof.
  intros [Hlen Hrows] Hrow Hcol. unfold mark_cell.
  destruct (py_index_in_range (length g) row) as [i Ei]; [lia|]. rewrite Ei.
  destruct (lookup_lt_is_Some_2 g i (py_index_lt _ _ _ Ei)) as [r Hr]. rewrite Hr.
  destruct (proj1 (Forall_lookup _ _) Hrows _ _ Hr) as [Hr1 _].
  destruct (py_index_in_range (length r) col) as [j Ej]; [lia|]. rewrite Ej.
  eauto.
Qed.

Lemma mark_cell_undefined (h w : nat) (g : grid) (row col : Z) :
  shaped h w g ->
  row < Z.of_nat h -> col < Z.of_nat w ->
  row < - Z.of_nat h \/ col < - Z.of_nat w ->
  mark_cell g row col = None.
Proof.
  intros [Hlen Hrows] Hrow Hcol Hout. unfold mark_cell.
  destruct (py_index (length g) row) as [i|] eqn:Ei; [|reflexivity].
  destruct (g !! i) as [r|] eqn:Hr; [|reflexivity].
  destruct (proj1 (Forall_lookup _ _) Hrows _ _ Hr) as [Hr1 _].
  rewrite py_index_out_of_range; [reflexivity|].
  destruct Hout as [Hout|Hout]; [|lia].
  rewrite py_index_out_of_range in Ei; [discriminate|lia].
Qed.

Lemma guard_true (h w row col : Z) :
  (row <? h) && (col <? w) = true <-> row < h /\ col < w.
Proof. now rewrite andb_true_iff, !Z.ltb_lt. Qed.

Lemma mark_flakes_cons (h w : Z) (row col : Z) (rest : list flake) (g : grid) world :
  mark_flakes h w ((row, col) :: rest) g world =
  if (row <? h) && (col <? w) then
    match mark_cell g row col with
    | Some g' => mark_flakes h w rest g' world
    | None => (Raise IndexError, world)
    end
  else mark_flakes h w rest g world.
Proof.
  cbn [mark_flakes]. destruct ((row <? h) && (col <? w)); [|reflexivity].
  apply mark_step.
Qed.

(** The loop of [render] keeps the shape of the grid and the world. *)
Lemma mark_flakes_shaped (h w : Z) (H W : nat) (fl : list flake) :
  forall (g g' : grid) world world',
  shaped H W g -> mark_flakes h w fl g world = (Ok g', world') ->
  shaped H W g' /\ world' = world.
Proof.
  induction fl as [|[row col] rest IH]; intros g g' world world' Hg E.
  - injection E as <- <-. now split.
  - rewrite mark_flakes_cons in E.
    destruct ((row <? h) && (col <? w)); [|now apply (IH g)].
    destruct (mark_cell g row col) as [g1|] eqn:Em; [|discriminate].
    apply (IH g1); [|exact E]. exact (mark_cell_shaped _ _ _ _ _ _ Hg Em).
Qed.

(** It completes when no flake is off the grid. *)
Lemma mark_flakes_ok (h w : Z) (fl : list flake) : forall (g : grid) world,
  shaped (Z.to_nat h) (Z.to_nat w) g ->
  Forall (fun f => ~ off_grid h w f) fl ->
  exists g', mark_flakes h w fl g world = (Ok g', world).
Proof.
  induction fl as [|[row col] rest IH]; intros g world Hg Hall.
  - now exists g.
  - apply Forall_cons in Hall as [Hf Hall]. rewrite mark_flakes_cons.
    destruct ((row <? h) && (col <? w)) eqn:Eg; [|now apply IH].
    apply guard_true in Eg as [Hrow Hcol].
    destruct (mark_cell_defined _ _ g row col Hg) as [g1 Em].
    + unfold off_grid in Hf. cbn in Hf. lia.
    + unfold off_grid in Hf. cbn in Hf. lia.
    + rewrite Em. apply IH; [|exact Hall].
      exact (mark_cell_shaped _ _ _ _ _ _ Hg Em).
Qed.

(** It raises [IndexError] when some flake is. *)
Lemma mark_flakes_raise (h w : Z) (fl : list flake) : forall (g : grid) world,
  shaped (Z.to_nat h) (Z.to_nat w) g ->
  Exists (off_grid h w) fl ->
  mark_flakes h w fl g world = (Raise IndexError, world).
Proof.
  induction fl as [|[row col] rest IH]; intros g world Hg Hex.
  - now apply Exists_nil in Hex.
  - rewrite mark_flakes_cons. apply Exists_cons in Hex.
    destruct ((row <? h) && (col <? w)) eqn:Eg.
    + apply guard_true in Eg as [Hrow Hcol].
      destruct (mark_cell g row col) as [g1|] eqn:Em; [|reflexivity].
      destruct Hex as [(_ & _ & Hout)|Hex].
      * rewrite (mark_cell_undefined _ _ g row col Hg) in Em;
          [discriminate | lia | lia | cbn in Hout; lia].
      * apply IH; [|exact Hex]. exact (mark_cell_shaped _ _ _ _ _ _ Hg Em).
    + destruct Hex as [(Hrow & Hcol & _)|Hex]; [|now apply IH].
      cbn in Hrow, Hcol.
      assert ((row <? h) && (col <? w) = true) by now apply guard_true.
      congruence.
Qed.

(** [render] on a field with no flake off the grid: the rows of a grid
    of [height] rows of [width] cells, joined. *)
Lemma render_ok (w : World) :
  Forall (fun f => ~ off_grid (height (snow w)) (width (snow w)) f)
         (flakes (snow w)) ->
  exists g, render w = (Ok (join_rows g), w) /\
            shaped (Z.to_nat (height (snow w))) (Z.to_nat (width (snow w))) g.
Proof.
  intros Hall. unfold render, get_snow. cbn [bind].
  destruct (mark_flakes_ok _ _ _ _ w (blank_grid_shaped _ _) Hall) as [g E].
  exists g. rewrite (bind_ok _ _ _ _ _ E). split; [reflexivity|].
  exact (proj1 (mark_flakes_shaped _ _ _ _ _ _ _ _ _ (blank_grid_shaped _ _) E)).
Qed.

(** [render] on a field with a flake off the grid. *)
Lemma render_raise (w : World) :
  Exists (off_grid (height (snow w)) (width (snow w))) (flakes (snow w)) ->
  render w = (Raise IndexError, w).
Proof.
  intros Hex. unfold render, get_snow. cbn [bind].
  apply bind_raise. apply mark_flakes_raise; [apply blank_grid_shaped|exact Hex].
Qed.

Lemma split_lines_nonempty (s : string) : split_lines s <> [].
Proof.
  destruct s as [|c s]; cbn [split_lines]; [discriminate|].
  destruct (Ascii.eqb c (ascii_of_nat 10)); [discriminate|].
  destruct (split_lines s); discriminate.
Qed.

Lemma append_nil_l (s : string) : ("" ++ s)%string = s.
Proof. reflexivity. Qed.

Lemma append_cons (c : ascii) (s t : string) :
  (String c s ++ t)%string = String c (s ++ t).
Proof. reflexivity. Qed.

Lemma split_lines_row (r : list ascii) (rest : string) :
  Forall (fun c => c = blank \/ c = marker) r ->
  split_lines (string_of_list_ascii r ++ rest) =
    match split_lines rest with
    | l :: ls => (string_of_list_ascii r ++ l)%string :: ls
    | [] => [string_of_list_ascii r]
    end.
Proof.
  pose proof (split_lines_nonempty rest) as Hne.
  induction 1 as [|c r Hc _ IH]; cbn [string_of_list_ascii].
  - rewrite append_nil_l. now destruct (split_lines rest).
  - rewrite append_cons. cbn [split_lines]. rewrite IH.
    replace (Ascii.eqb c (ascii_of_nat 10)) with false
      by (destruct Hc as [-> | ->]; reflexivity).
    destruct (split_lines rest); [contradiction|]. now rewrite append_cons.
Qed.

Lemma append_empty (s : string) : (s ++ "")%string = s.
Proof.
  induction s as [|c s IH]; [reflexivity|]. now rewrite append_cons, IH.
Qed.

Lemma concat_cons2 (sep x y : string) (l : list string) :
  String.concat sep (x :: y :: l) = (x ++ sep ++ String.concat sep (y :: l))%string.
Proof. reflexivity. Qed.

Lemma split_lines_join_cons (g : grid) : forall r : list ascii,
  Forall (Forall (fun c => c = blank \/ c = marker)) (r :: g) ->
  split_lines (join_rows (r :: g)) = map string_of_list_ascii (r :: g).
Proof.
  unfold join_rows.
  induction g as [|r' g IH]; intros r Hall;
    apply Forall_cons in Hall as [Hr Hall].
  - cbn. rewrite <- (append_empty (string_of_list_ascii r)) at 1.
    rewrite (split_lines_row r "" Hr). cbn. now rewrite append_empty.
  - specialize (IH r' Hall). cbn [map] in IH |- *.
    rewrite concat_cons2, (split_lines_row r _ Hr).
    unfold newline at 1. rewrite append_cons, append_nil_l.
    cbn [split_lines]. rewrite Ascii.eqb_refl, IH. now rewrite append_empty.
Qed.

(** The lines of the text [render] joins are the rows it joined. *)
Lemma split_lines_join_rows (h w : nat) (g : grid) :
  shaped (S h) w g ->
  split_lines (join_rows g) = map string_of_list_ascii g.
Proof.
  intros [Hlen Hrows]. destruct g as [|r g]; [discriminate Hlen|].
  apply split_lines_join_cons.
  eapply Forall_impl; [exact Hrows|]. now intros r0 [_ ?].
Qed.

Lemma length_string_of_list_ascii (r : list ascii) :
  String.length (string_of_list_ascii r) = length r.
Proof. induction r as [|c r IH]; cbn; [reflexivity|now rewrite IH]. Qed.

(** So a text [render] returns, of a field of positive height, has
    [height] lines of [width] characters. *)
Lemma render_lines (w : World) (out : string) (w' : World) :
  0 < height (snow w) ->
  render w = (Ok out, w') ->
  w' = w /\
  Z.of_nat (length (split_lines out)) = height (snow w) /\
  Forall (fun l => Z.of_nat (String.length l) = Z.max 0 (width (snow w)))
         (split_lines out).
Proof.
  intros Hh E. unfold render, get_snow in E. cbn [bind] in E.
  apply bind_ok_inv in E as (g & w1 & Em & Er).
  injection Er as <- <-.
  destruct (mark_flakes_shaped _ _ _ _ _ _ _ _ _ (blank_grid_shaped _ _) Em)
    as [Hg ->].
  split; [reflexivity|].
  destruct (Z.to_nat (height (snow w))) as [|h] eqn:Eh; [lia|].
  rewrite (split_lines_join_rows _ _ _ Hg).
  destruct Hg as [Hlen Hrows]. rewrite length_map, Hlen. split; [lia|].
  apply Forall_fmap. eapply Forall_impl; [exact Hrows|].
  intros r [Hr _]. cbn. rewrite length_string_of_list_ascii, Hr. lia.
Qed.

Lemma py_index_nonneg (n : nat) (i : Z) :
  0 <= i < Z.of_nat n -> py_index n i = Some (Z.to_nat i).
Proof.
  intros Hi. unfold py_index.
  replace ((0 <=? i) && (i <? Z.of_nat n)) with true; [reflexivity|].
  symmetry. apply andb_true_iff. rewrite Z.leb_le, Z.ltb_lt. lia.
Qed.

Lemma mark_cell_cells (H W : nat) (g g' : grid) (row col : Z) :
  shaped H W g -> mark_cell g row col = Some g' ->
  exists i0 j0,
    py_index H row = Some i0 /\ py_index W col = Some j0 /\
    forall i j, cell g' i j = Some marker <->
                cell g i j = Some marker \/ (i = i0 /\ j = j0).
Proof.
  intros [Hlen Hrows] E. unfold mark_cell in E. rewrite Hlen in E.
  destruct (py_index H row) as [i0|] eqn:Ei; [|discriminate].
  destruct (g !! i0) as [r|] eqn:Hr; [|discriminate].
  destruct (proj1 (Forall_lookup _ _) Hrows _ _ Hr) as [Hr1 _].
  rewrite Hr1 in E.
  destruct (py_index W col) as [j0|] eqn:Ej; [|discriminate].
  injection E as <-. exists i0, j0. split; [reflexivity|]. split; [reflexivity|].
  pose proof (py_index_lt _ _ _ Ei) as Hi0.
  pose proof (py_index_lt _ _ _ Ej) as Hj0.
  intros i j. unfold cell.
  destruct (decide (i = i0)) as [->|Hi].
  - rewrite list_lookup_insert_eq by lia. rewrite Hr.
    destruct (decide (j = j0)) as [->|Hj].
    + rewrite list_lookup_insert_eq by lia. intuition.
    + rewrite list_lookup_insert_ne by congruence. intuition.
  - rewrite list_lookup_insert_ne by congruence.
    destruct (g !! i); intuition.
Qed.

(** The cells the loop of [render] has marked at its end: those marked
    before, and those the flakes mark. *)
Lemma mark_flakes_cells (h w : Z) (fl : list flake) :
  forall (g g' : grid) world world',
  shaped (Z.to_nat h) (Z.to_nat w) g ->
  mark_flakes h w fl g world = (Ok g', world') ->
  forall i j, cell g' i j = Some marker <->
              cell g i j = Some marker \/ exists f, f ∈ fl /\ marks_at h w f i j.
Proof.
  induction fl as [|[row col] rest IH]; intros g g' world world' Hg E i j.
  - injection E as <- <-. split; [now left|].
    intros [?|(f & Hf & _)]; [assumption|]. now apply elem_of_nil in Hf.
  - rewrite mark_flakes_cons in E.
    destruct ((row <? h) && (col <? w)) eqn:Eg.
    + apply guard_true in Eg as [Hrow Hcol].
      destruct (mark_cell g row col) as [g1|] eqn:Em; [|discriminate].
      destruct (mark_cell_cells _ _ _ _ _ _ Hg Em) as (i0 & j0 & Ei & Ej & Hc).
      rewrite (IH g1 g' world world' (mark_cell_shaped _ _ _ _ _ _ Hg Em) E i j).
      rewrite Hc. split.
      * intros [[?|[-> ->]]|(f & Hf & Hm)].
        -- now left.
        -- right. exists (row, col). split; [left|]. now unfold marks_at.
        -- right. exists f. split; [now right|exact Hm].
      * intros [?|(f & Hf & Hm)]; [now left; left|].
        apply elem_of_cons in Hf as [->|Hf].
        -- left. right. destruct Hm as (_ & _ & Hi & Hj). cbn in Hi, Hj.
           split; congruence.
        -- right. now exists f.
    + rewrite (IH g g' world world' Hg E i j). split.
      * intros [?|(f & Hf & Hm)]; [now left|].
        right. exists f. split; [now right|exact Hm].
      * intros [?|(f & Hf & Hm)]; [now left|].
        apply elem_of_cons in Hf as [->|Hf].
        -- destruct Hm as (Hrow & Hcol & _). cbn in Hrow, Hcol.
           assert ((row <? h) && (col <? w) = true) by now apply guard_true.
           congruence.
        -- right. now exists f.
Qed.

Lemma blank_grid_cell (h w : Z) (i j : nat) :
  cell (blank_grid h w) i j <> Some marker.
Proof.
  unfold cell, blank_grid.
  destruct (replicate (Z.to_nat h) (replicate (Z.to_nat w) blank) !! i)
    as [r|] eqn:Hr; [|discriminate].
  apply lookup_replicate in Hr as [-> _].
  destruct (replicate (Z.to_nat w) blank !! j) as [c|] eqn:Hc; [|discriminate].
  apply lookup_replicate in Hc as [-> _]. discriminate.
Qed.

Lemma get_string_of_list_ascii (r : list ascii) : forall j : nat,
  String.get j (string_of_list_ascii r) = r !! j.
Proof.
  induction r as [|c r IH]; intros [|j]; cbn; try reflexivity. apply IH.
Qed.

Lemma text_cell_join_rows (h w : nat) (g : grid) (i j : nat) :
  shaped (S h) w g -> text_cell (join_rows g) i j = cell g i j.
Proof.
  intros Hg. unfold text_cell, cell.
  rewrite (split_lines_join_rows _ _ _ Hg), list_lookup_fmap.
  destruct (g !! i); cbn; [apply get_string_of_list_ascii|reflexivity].
Qed.

(** What a text that [render] returns shows: the marker stands exactly
    in the cells that the flakes mark. *)
Lemma render_cells (w : World) (out : string) (w' : World) :
  0 < height (snow w) ->
  render w = (Ok out, w') ->
  forall i j, text_cell out i j = Some marker <->
              exists f, f ∈ flakes (snow w) /\
                        marks_at (height (snow w)) (width (snow w)) f i j.
Proof.
  intros Hh E i j. unfold render, get_snow in E. cbn [bind] in E.
  apply bind_ok_inv in E as (g & w1 & Em & Er).
  injection Er as <- <-.
  destruct (mark_flakes_shaped _ _ _ _ _ _ _ _ _ (blank_grid_shaped _ _) Em)
    as [Hg _].
  destruct (Z.to_nat (height (snow w))) as [|h] eqn:Eh; [lia|].
  rewrite (text_cell_join_rows _ _ _ _ _ Hg).
  rewrite <- Eh in Hg.
  rewrite (mark_flakes_cells _ _ _ _ _ _ _ (blank_grid_shaped _ _) Em i j).
  pose proof (blank_grid_cell (height (snow w)) (width (snow w)) i j).
  intuition.
Qed.

(** A flake left of the field wraps to its right edge: with its row in
    the field and its column in [-width, 0), the text shows a marker in
    its row at column [width + col]. *)
Lemma render_wraps_negative_column (w : World) (row col : Z) (out : string) (w' : World) :
  0 <= row < height (snow w) -> - width (snow w) <= col < 0 ->
  (row, col) ∈ flakes (snow w) ->
  render w = (Ok out, w') ->
  text_cell out (Z.to_nat row) (Z.to_nat (width (snow w) + col)) = Some marker.
Proof.
  intros Hrow Hcol Hin E.
  apply (render_cells w out w'); [lia|exact E|].
  exists (row, col). split; [exact Hin|]. unfold marks_at. cbn [fst snd].
  split; [lia|]. split; [lia|]. split.
  - apply py_index_nonneg. lia.
  - rewrite py_index_negative by lia. f_equal. lia.
Qed.

(** C2, where the code departs from it: two ticks of the default field
    can leave a flake at column -1, outside [0, width); [render] does
    not skip it but marks the cell of its row at column 99, where no
    flake is. *)
Theorem render_marks_wrapped_column :
  ticks 2 (default_world []) = (Ok tt, left_drift_world) /\
  flakes (snow left_drift_world) = [(1, -1); (1, 98); (0, 0); (0, 99)] /\
  exists out, render left_drift_world = (Ok out, left_drift_world) /\
              text_cell out 1 99 = Some marker.
Proof.
  assert (Hfl : flakes (snow left_drift_world)
                = [(1, -1); (1, 98); (0, 0); (0, 99)]) by (vm_compute; reflexivity).
  assert (Hh : height (snow left_drift_world) = 30) by (vm_compute; reflexivity).
  assert (Hw : width (snow left_drift_world) = 100) by (vm_compute; reflexivity).
  split; [vm_compute; reflexivity|]. split; [exact Hfl|].
  destruct (render_ok left_drift_world) as [g [E _]].
  { rewrite Hfl, Hh, Hw. repeat constructor; unfold off_grid; cbn; lia. }
  exists (join_rows g). split; [exact E|].
  pose proof (render_wraps_negative_column left_drift_world 1 (-1)
                (join_rows g) left_drift_world) as H.
  rewrite Hfl, Hh, Hw in H. apply H; [lia | lia | left | exact E].
Qed.

(** C5, where the code departs from it: fourteen ticks of a field of
    height 30 and width 12 at intensity 9 can leave a flake at column
    -13; [render] then returns no text at all: it raises [IndexError]. *)
Theorem render_raises_off_grid :
  ticks 14 (start (Snow_init 30 12 9) zero_rng []) = (Ok tt, far_drift_world) /\
  (13, -13) ∈ flakes (snow far_drift_world) /\
  render far_drift_world = (Raise IndexError, far_drift_world).
Proof.
  split; [vm_compute; reflexivity|]. split.
  - replace (flakes (snow far_drift_world))
      with ((13, -13) :: tail (flakes (snow far_drift_world)))
      by (vm_compute; reflexivity).
    left.
  - vm_compute. reflexivity.
Qed.


(** * Further properties *)

(** ** The tick *)

Lemma filter_moved_length (h : Z) (fl moved : list flake) :
  Forall2 shimmied fl moved ->
  length (filter (in_rows h) moved) = length (filter (stays h) fl).
Proof.
  induction 1 as [|f f' fl moved (d & _ & ->) _ IH]; [reflexivity|].
  rewrite !filter_cons. unfold in_rows at 1, stays at 1. cbn [fst].
  destruct (decide (fst f + 1 < h)); cbn [length]; now rewrite IH.
Qed.

(** X1: a tick that completes changes the flake list and nothing else,
    and leaves as many flakes as there were flakes at least two rows
    above the bottom, plus the [num_flakes] new ones when the field has
    a row. *)
Theorem update_flakes_count (w w' : World) :
  update_flakes w = (Ok tt, w') ->
  0 < height (snow w) ->
  height (snow w') = height (snow w) /\ width (snow w') = width (snow w) /\
  intensity (snow w') = intensity (snow w) /\
  running w' = running w /\ display_help w' = display_help w /\
  stdin w' = stdin w /\
  Z.of_nat (length (flakes (snow w'))) =
    Z.of_nat (length (filter (stays (height (snow w))) (flakes (snow w))))
    + num_flakes (snow w).
Proof.
  intros E Hh.
  apply update_flakes_inv in E as (moved & new & Hall & Hsp & Hs & Hr & Hd & Hi).
  rewrite Hs. cbn [with_flakes height width intensity flakes].
  repeat (split; [first [reflexivity | assumption]|]).
  rewrite filter_app, length_app, (filter_moved_length _ _ _ Hall).
  rewrite filter_in_rows_all.
  - destruct Hsp as [Hlen _]. lia.
  - eapply Forall_impl; [exact (spawned_rows _ _ Hsp)|].
    intros f Hf. cbn beta in Hf. lia.
Qed.

Lemma update_flakes_count_witness :
  update_flakes last_row_world = (Ok tt, snd (update_flakes last_row_world)) /\
  0 < height (snow last_row_world) /\
  Z.of_nat (length (flakes (snow (snd (update_flakes last_row_world))))) = 1 + 5.
Proof.
  assert (E : update_flakes last_row_world
              = (Ok tt, snd (update_flakes last_row_world)))
    by (vm_compute; reflexivity).
  assert (Hh : 0 < height (snow last_row_world)) by (cbn; lia).
  split; [exact E|]. split; [exact Hh|].
  destruct (update_flakes_count _ _ E Hh) as (_ & _ & _ & _ & _ & _ & Hn).
  exact Hn.
Defined.

(** X2: a tick whose count [random.sample] refuses raises [ValueError]
    after the move and before the removal: the flake list it leaves is
    the moved one, unfiltered, as long as before and with every row one
    further down, rows at or beyond the height among them. *)
Theorem update_flakes_failure_keeps_moved (w : World) :
  ~ (0 <= num_flakes (snow w) <= Z.max 0 (width (snow w))) ->
  exists w',
    update_flakes w = (Raise ValueError, w') /\
    Forall2 shimmied (flakes (snow w)) (flakes (snow w')) /\
    length (flakes (snow w')) = length (flakes (snow w)) /\
    forall c, (height (snow w) - 1, c) ∈ flakes (snow w) ->
              exists d, (d = -1 \/ d = 0 \/ d = 1) /\
                        (height (snow w), c + d) ∈ flakes (snow w').
Proof.
  intros Hn.
  destruct (update_flakes_raise w Hn) as (moved & w' & E & Hall & Hfl).
  exists w'. rewrite Hfl. split; [exact E|]. split; [exact Hall|].
  split; [symmetry; exact (Forall2_length _ _ _ Hall)|].
  intros c Hin. apply list_elem_of_lookup in Hin as [i Hi].
  destruct (Forall2_lookup_l _ _ _ _ _ Hall Hi) as (f' & Hf' & d & Hd & ->).
  exists d. split; [exact Hd|]. cbn [fst snd] in Hf'.
  replace (height (snow w) - 1 + 1) with (height (snow w)) in Hf' by lia.
  apply list_elem_of_lookup. now exists i.
Qed.

Lemma update_flakes_failure_keeps_moved_witness :
  ~ (0 <= num_flakes (snow failing_tick_world)
       <= Z.max 0 (width (snow failing_tick_world))) /\
  exists w', update_flakes failing_tick_world = (Raise ValueError, w') /\
             length (flakes (snow w')) = 1%nat.
Proof.
  assert (Hn : ~ (0 <= num_flakes (snow failing_tick_world)
                    <= Z.max 0 (width (snow failing_tick_world))))
    by (change (~ (0 <= 2 <= Z.max 0 1)); lia).
  split; [exact Hn|].
  destruct (update_flakes_failure_keeps_moved failing_tick_world Hn)
    as (w' & E & _ & Hlen & _).
  exists w'. split; [exact E | exact Hlen].
Defined.

(** ** Spawning *)

(** X3: at intensity 100, with [width * intensity < 2^53], where the
    double division of the code is exact, [new_flakes] puts a flake in
    every column of the top row: its columns are the columns of the
    field, each once, in some order. *)
Theorem new_flakes_fills_top_row (w : World) :
  0 <= width (snow w) -> intensity (snow w) = 100 ->
  width (snow w) * intensity (snow w) < 2 ^ 53 ->
  exists new w',
    new_flakes w = (Ok new, w') /\ Forall (fun f => fst f = 0) new /\
    map snd new ≡ₚ range (width (snow w)).
Proof.
  intros Hw Hi _.
  assert (Hn : num_flakes (snow w) = width (snow w)).
  { unfold num_flakes, int_div100. rewrite Hi. apply Z.quot_mul. lia. }
  destruct (new_flakes_ok w) as (new & w' & E & _ & Hsp); [lia|].
  exists new, w'. split; [exact E|]. split; [exact (spawned_rows _ _ Hsp)|].
  destruct Hsp as (Hlen & Hall & Hnd).
  apply submseteq_length_Permutation.
  - apply NoDup_submseteq; [exact Hnd|].
    intros c Hc. apply list_elem_of_fmap in Hc as (f & -> & Hf).
    rewrite Forall_forall in Hall. destruct (Hall f Hf) as [_ Hcol].
    unfold range. apply elem_of_seqZ. lia.
  - rewrite length_map. unfold range. rewrite length_seqZ.
    unfold flake in *. lia.
Qed.

Lemma new_flakes_fills_top_row_witness :
  0 <= width (snow pathological) /\ intensity (snow pathological) = 100 /\
  width (snow pathological) * intensity (snow pathological) < 2 ^ 53 /\
  exists new w', new_flakes pathological = (Ok new, w') /\
                 map snd new ≡ₚ [0; 1; 2; 3; 4].
Proof.
  assert (Hw : 0 <= width (snow pathological)) by (cbn; lia).
  split; [exact Hw|]. split; [reflexivity|]. split; [reflexivity|].
  destruct (new_flakes_fills_top_row pathological Hw eq_refl eq_refl)
    as (new & w' & E & _ & Hp).
  exists new, w'. split; [exact E | exact Hp].
Defined.

(** ** The input thread *)

(** The lines still to be read are no concern of a command. *)
Lemma handle_input_stdin (s : string) (l : list string) (w : World) :
  handle_input s (with_stdin l w) =
  (fst (handle_input s w), with_stdin l (snd (handle_input s w))).
Proof.
  unfold handle_input.
  destruct (String.eqb s "x"); [reflexivity|].
  destruct (String.eqb s "i"); [reflexivity|].
  destruct (String.eqb s "d"); [reflexivity|].
  destruct (String.eqb s "h"); [reflexivity|].
  destruct ((String.length s =? 1)%nat && re_match_digit s); [|reflexivity].
  unfold bind. destruct (int_of_str s w) as [[n|e] w1] eqn:E.
  - unfold int_of_str in *. destruct s as [|c s]; [discriminate|].
    revert E. generalize 0. generalize (String c s). clear.
    intros s. induction s as [|c s IH]; intros acc E; cbn [int_digits] in *.
    + injection E as <- <-. reflexivity.
    + destruct (is_digit c); [|discriminate]. now apply IH.
  - unfold int_of_str in *. destruct s as [|c s].
    + injection E as <- <-. reflexivity.
    + revert E. generalize 0. generalize (String c s). clear.
      intros s. induction s as [|c s IH]; intros acc E; cbn [int_digits] in *.
      * discriminate.
      * destruct (is_digit c); [now apply IH|].
        injection E as <- <-. reflexivity.
Qed.

Lemma input_loop_until_x (pre post : list string) : forall w : World,
  running w = true -> "x"%string ∉ pre ->
  input_loop (pre ++ "x"%string :: post) w =
    (Ok tt, with_running false (with_stdin post (snd (input_loop pre w)))).
Proof.
  induction pre as [|s pre IH]; intros w Hr Hx.
  - cbn [app]. rewrite (input_loop_stop post w Hr).
    cbn [input_loop]. rewrite Hr. reflexivity.
  - assert (Hs : s <> "x"%string) by (intros ->; apply Hx; left).
    assert (Hpre : "x"%string ∉ pre) by (intros H; apply Hx; now right).
    cbn [app input_loop]. rewrite Hr. unfold bind.
    rewrite !handle_input_stdin.
    destruct (handle_input_ok s w) as (w1 & E1 & _ & _ & _ & _ & _ & Hr1 & _).
    rewrite E1. cbn [fst snd].
    assert (Hr1' : running w1 = true) by (rewrite (Hr1 Hs); exact Hr).
    rewrite (IH (with_stdin (pre ++ "x"%string :: post) w1) Hr1' Hpre).
    destruct pre as [|s' pre']; cbn [input_loop running with_stdin];
      rewrite Hr1'; reflexivity.
Qed.

(** X4: [user_input_handler] stops at the first ["x"]: it handles the
    lines before it as it would have on reaching the end of the input
    after them, sets [running] to false, returns, and leaves the lines
    after the ["x"] unread. *)
Theorem user_input_handler_stops_at_x (pre post : list string) (w : World) :
  running w = true -> "x"%string ∉ pre ->
  stdin w = pre ++ "x"%string :: post ->
  user_input_handler w =
    (Ok tt, with_running false (with_stdin post (snd (input_loop pre w)))).
Proof.
  intros Hr Hx Hin. unfold user_input_handler. rewrite Hin.
  now apply input_loop_until_x.
Qed.

Lemma user_input_handler_stops_at_x_witness :
  running stopping_world = true /\
  exists w', user_input_handler stopping_world = (Ok tt, w') /\
             running w' = false /\ stdin w' = ["d"; "x"]%string /\
             intensity (snow w') = 7 /\ display_help w' = false.
Proof.
  split; [reflexivity|].
  eexists. split.
  - apply (user_input_handler_stops_at_x ["i"; "h"; "7"]%string
             ["d"; "x"]%string stopping_world); [reflexivity| |reflexivity].
    intros H. repeat (apply elem_of_cons in H as [H|H]; [discriminate H|]).
    now apply elem_of_nil in H.
  - repeat split.
Defined.

(** X5: a line never makes [handle_input] raise, and whatever the line,
    it leaves the size of the field, the flakes, the generator and the
    input as they are; it never sets [running] to true; only ["x"]
    changes [running] and only ["h"] changes [display_help], and neither
    of the two changes the intensity. *)
Theorem handle_input_touches_controls_only (s : string) (w : World) :
  exists w',
    handle_input s w = (Ok tt, w') /\
    height (snow w') = height (snow w) /\ width (snow w') = width (snow w) /\
    flakes (snow w') = flakes (snow w) /\ rng w' = rng w /\ stdin w' = stdin w /\
    (running w' = true -> running w = true) /\
    (s <> "x"%string -> running w' = running w) /\
    (s <> "h"%string -> display_help w' = display_help w) /\
    (s = "x"%string \/ s = "h"%string -> intensity (snow w') = intensity (snow w)).
Proof.
  unfold handle_input.
  destruct (String.eqb_spec s "x") as [->|Hx].
  { eexists; split; [reflexivity|]; cbn; intuition congruence. }
  destruct (String.eqb_spec s "i") as [->|Hi].
  { eexists; split; [reflexivity|]; cbn; intuition congruence. }
  destruct (String.eqb_spec s "d") as [->|Hd].
  { eexists; split; [reflexivity|]; cbn; intuition congruence. }
  destruct (String.eqb_spec s "h") as [->|Hh].
  { eexists; split; [reflexivity|]; cbn; intuition congruence. }
  destruct s as [|c [|c' s']];
    try (eexists; split; [reflexivity|]; cbn; intuition congruence).
  cbn [String.length Nat.eqb andb re_match_digit].
  destruct (is_digit c) eqn:Hc;
    [|eexists; split; [reflexivity|]; cbn; intuition congruence].
  unfold int_of_str, bind. cbn [int_digits]. rewrite Hc.
  eexists; split; [reflexivity|]. cbn. intuition congruence.
Qed.

(** ** The states the program runs through *)

Lemma shimmied_in_cone (h w : Z) (f f' : flake) :
  in_cone h w f -> shimmied f f' -> fst f' < h -> in_cone h w f'.
Proof.
  intros [Hrow Hcol] (d & Hd & ->) Hh. unfold in_cone in *. cbn [fst snd] in *.
  lia.
Qed.

(** A tick from a settled state completes and leaves a settled state. *)
Lemma update_flakes_settled (w : World) :
  settled w ->
  exists w', update_flakes w = (Ok tt, w') /\ settled w' /\
             height (snow w') = height (snow w) /\
             width (snow w') = width (snow w) /\
             running w' = running w /\ display_help w' = display_help w.
Proof.
  intros (Hw & Hi & Hall).
  destruct (update_flakes_ok w) as [w' E].
  { pose proof (num_flakes_bounds (snow w) Hw). lia. }
  exists w'. split; [exact E|].
  apply update_flakes_inv in E as (moved & new & Hmv & Hsp & Hs & Hr & Hd & _).
  unfold settled. rewrite Hs. cbn [with_flakes height width intensity flakes].
  split; [|auto]. split; [exact Hw|]. split; [exact Hi|].
  apply Forall_forall. intros f Hf.
  apply list_elem_of_filter in Hf as [Hrow Hf]. unfold in_rows in Hrow.
  apply elem_of_app in Hf as [Hf|Hf].
  - apply list_elem_of_lookup in Hf as [i Hi'].
    destruct (Forall2_lookup_r _ _ _ _ _ Hmv Hi') as (f0 & Hf0 & Hsh).
    apply (shimmied_in_cone _ _ f0); [|exact Hsh|exact Hrow].
    exact (proj1 (Forall_lookup _ _) Hall _ _ Hf0).
  - destruct Hsp as (_ & Hnew & _). rewrite Forall_forall in Hnew.
    destruct (Hnew f Hf) as [H0 Hcol]. unfold in_cone. lia.
Qed.

Lemma handle_input_settled (s : string) (w : World) :
  settled w ->
  exists w', handle_input s w = (Ok tt, w') /\ settled w' /\
             height (snow w') = height (snow w) /\
             width (snow w') = width (snow w).
Proof.
  intros (Hw & Hi & Hall).
  destruct (handle_input_ok s w) as (w' & E & Hh' & Hw' & Hf' & _ & _ & _ & Hb).
  exists w'. split; [exact E|]. split; [|auto].
  unfold settled. rewrite Hh', Hw', Hf'. auto.
Qed.

(** [render] changes nothing, whether it returns or raises. *)
Lemma mark_flakes_world (h w : Z) (fl : list flake) :
  forall (g : grid) world r world',
  mark_flakes h w fl g world = (r, world') -> world' = world.
Proof.
  induction fl as [|[row col] rest IH]; intros g world r world' E.
  - now injection E as _ <-.
  - rewrite mark_flakes_cons in E.
    destruct ((row <? h) && (col <? w)); [|now apply (IH g _ r)].
    destruct (mark_cell g row col) as [g1|]; [now apply (IH g1 _ r)|].
    now injection E as _ <-.
Qed.

Lemma render_world (w : World) r w' : render w = (r, w') -> w' = w.
Proof.
  unfold render, get_snow, bind.
  destruct (mark_flakes _ _ _ _ w) as [[g|e] w1] eqn:E; intros E';
    apply mark_flakes_world in E; injection E' as _ <-; exact E.
Qed.

(** In a field no more than one row taller than it is wide the cone
    stays on the grid. *)
Lemma in_cone_on_grid (h w : Z) (f : flake) :
  0 <= w -> h <= w + 1 -> in_cone h w f -> ~ off_grid h w f.
Proof.
  intros Hw Hh [Hrow Hcol] (_ & _ & Hout). lia.
Qed.

Lemma mark_flakes_exn (h w : Z) (fl : list flake) :
  forall (g : grid) world e world',
  mark_flakes h w fl g world = (Raise e, world') -> e = IndexError.
Proof.
  induction fl as [|[row col] rest IH]; intros g world e world' E.
  - discriminate.
  - rewrite mark_flakes_cons in E.
    destruct ((row <? h) && (col <? w)); [|now apply (IH g world e world')].
    destruct (mark_cell g row col) as [g1|]; [now apply (IH g1 world e world')|].
    now injection E as <- _.
Qed.

Lemma render_exn (w : World) e w' : render w = (Raise e, w') -> e = IndexError.
Proof.
  unfold render, get_snow, bind.
  destruct (mark_flakes _ _ _ _ w) as [[g|e1] w1] eqn:E; intros E'.
  - discriminate.
  - injection E' as <- _. exact (mark_flakes_exn _ _ _ _ _ _ _ E).
Qed.

Lemma frame_run (w w1 : World) :
  update_flakes w = (Ok tt, w1) ->
  frame w =
    match render w1 with
    | (Ok out, w2) =>
        (Ok (if display_help w2 then [out; help_text] else [out]), w2)
    | (Raise e, w2) => (Raise e, w2)
    end.
Proof.
  intros E. unfold frame. rewrite (bind_ok _ _ _ _ _ E). unfold bind.
  now destruct (render w1) as [[out|e] w2].
Qed.

(** A frame from a settled state leaves a settled state, and nothing
    but the [IndexError] of [render] can end it. *)
Lemma frame_settled (w : World) r w' :
  settled w -> frame w = (r, w') ->
  settled w' /\ height (snow w') = height (snow w) /\
  width (snow w') = width (snow w) /\ running w' = running w /\
  ((exists p, r = Ok p) \/ r = Raise IndexError).
Proof.
  intros Hs E.
  destruct (update_flakes_settled w Hs) as (w1 & E1 & Hs1 & Hh & Hw & Hr & _).
  rewrite (frame_run w w1 E1) in E.
  destruct (render w1) as [[out|e] w2] eqn:Er;
    pose proof (render_world _ _ _ Er) as ->; injection E as <- <-.
  - split; [exact Hs1|]. split; [exact Hh|]. split; [exact Hw|].
    split; [exact Hr|]. left. eauto.
  - apply render_exn in Er as ->.
    split; [exact Hs1|]. split; [exact Hh|]. split; [exact Hw|].
    split; [exact Hr|]. now right.
Qed.

(** In a field no more than one row taller than it is wide, a frame from
    a settled state is drawn. *)
Lemma frame_ok (w : World) :
  settled w -> 0 < height (snow w) <= width (snow w) + 1 ->
  exists p w', frame w = (Ok p, w') /\ settled w' /\
               height (snow w') = height (snow w) /\
               width (snow w') = width (snow w) /\ running w' = running w /\
               frame_texts (height (snow w)) (width (snow w)) p.
Proof.
  intros Hs Hh.
  destruct (update_flakes_settled w Hs) as (w1 & E1 & Hs1 & Hh1 & Hw1 & Hr & _).
  rewrite (frame_run w w1 E1).
  destruct Hs1 as (Hw & Hi & Hall).
  destruct (render_ok w1) as [g [Er _]].
  { eapply Forall_impl; [exact Hall|]. intros f Hf.
    apply in_cone_on_grid; [exact Hw|lia|exact Hf]. }
  rewrite Er.
  destruct (render_lines w1 (join_rows g) w1) as (_ & Hlen & Hlines);
    [lia|exact Er|].
  eexists _, w1. split; [reflexivity|].
  split; [now split|]. split; [exact Hh1|]. split; [exact Hw1|].
  split; [exact Hr|].
  exists (join_rows g). split.
  - destruct (display_help w1); auto.
  - rewrite <- Hh1, <- Hw1. split; [exact Hlen|].
    eapply Forall_impl; [exact Hlines|]. intros l Hl. cbn beta in Hl. lia.
Qed.

(** A frame ends in the world its tick leaves. *)
Lemma frame_tick (w : World) r w' :
  settled w -> frame w = (r, w') ->
  update_flakes w = (Ok tt, w') /\
  ((exists p, r = Ok p) \/ r = Raise IndexError).
Proof.
  intros Hs E.
  destruct (update_flakes_settled w Hs) as (w1 & E1 & _).
  rewrite (frame_run w w1 E1) in E.
  destruct (render w1) as [[out|e] w2] eqn:Er;
    pose proof (render_world _ _ _ Er) as ->; injection E as <- <-.
  - split; [exact E1|]. left. eauto.
  - apply render_exn in Er as ->. split; [exact E1|]. now right.
Qed.

(** What every tick and every command keeps, a run keeps; and a run
    ends, if not well, by the [IndexError] of [render]. *)
Lemma run_inv (I : World -> Prop) :
  (forall w, I w -> settled w) ->
  (forall w w', I w -> update_flakes w = (Ok tt, w') -> I w') ->
  (forall s w w', I w -> handle_input s w = (Ok tt, w') -> I w') ->
  forall (evs : list event) (w : World) r w',
  I w -> run evs w = (r, w') ->
  I w' /\ ((exists ps, r = Ok ps) \/ r = Raise IndexError).
Proof.
  intros Hset Htick Hline.
  induction evs as [|ev rest IH]; intros w r w' Hi E; cbn [run] in E.
  - injection E as <- <-. split; [exact Hi|]. eauto.
  - destruct (running w); [|injection E as <- <-; split; [exact Hi|]; eauto].
    destruct ev as [|s].
    + unfold bind at 1 in E.
      destruct (frame w) as [[p|e] w1] eqn:Ef;
        destruct (frame_tick w _ _ (Hset w Hi) Ef) as [Et Hr];
        pose proof (Htick w w1 Hi Et) as Hi1.
      * unfold bind in E.
        destruct (run rest w1) as [[ps|e] w2] eqn:Er;
          destruct (IH w1 _ _ Hi1 Er) as [Hi2 Hr2];
          injection E as <- <-; (split; [exact Hi2|]).
        -- left. eauto.
        -- destruct Hr2 as [[ps Hp]|Hr2]; [discriminate|now right].
      * injection E as <- <-. split; [exact Hi1|].
        destruct Hr as [[p Hp]|Hr]; [discriminate|].
        injection Hr as ->. now right.
    + destruct (handle_input_ok s w) as (w1 & E1 & _).
      rewrite (bind_ok _ _ _ _ _ E1) in E.
      exact (IH w1 _ _ (Hline s w w1 Hi E1) E).
Qed.

(** X6: whatever the two threads do in whatever order, from a settled
    state (the start of [main] with a width that is not negative is
    one) the state stays settled: the intensity stays within [0, 10] and
    every flake in a row of the field, no further left of column 0 and
    no further right of the last column than its row number.  No tick
    and no command raises: a run can only end by the [IndexError] of
    [render]. *)
Theorem run_stays_settled (evs : list event) (w : World) r w' :
  settled w -> run evs w = (r, w') ->
  settled w' /\ height (snow w') = height (snow w) /\
  width (snow w') = width (snow w) /\
  ((exists ps, r = Ok ps) \/ r = Raise IndexError).
Proof.
  intros Hs E.
  destruct (run_inv (fun v => settled v /\ height (snow v) = height (snow w) /\
                              width (snow v) = width (snow w)))
    with (evs := evs) (w := w) (r := r) (w' := w')
    as [(Hs' & Hh & Hw) Hr]; auto.
  - now intros v [Hv _].
  - intros v v' (Hv & Hh & Hw) Et.
    destruct (update_flakes_settled v Hv) as (v1 & E1 & Hs1 & Hh1 & Hw1 & _).
    rewrite Et in E1. injection E1 as <-.
    split; [exact Hs1|]. split; congruence.
  - intros s v v' (Hv & Hh & Hw) El.
    destruct (handle_input_settled s v Hv) as (v1 & E1 & Hs1 & Hh1 & Hw1).
    rewrite El in E1. injection E1 as <-.
    split; [exact Hs1|]. split; congruence.
Qed.


(** The world [main] starts in is settled when the width is not
    negative and the intensity is one the parser admits. *)
Lemma start_settled (h w i : Z) (g : Rng) (lines : list string) :
  0 <= w -> 0 <= i <= 10 -> settled (start (Snow_init h w i) g lines).
Proof. intros Hw Hi. unfold settled. cbn. auto. Qed.

Lemma run_stays_settled_witness :
  settled (default_world []) /\
  settled (snd (run short_run (default_world []))) /\
  intensity (snow (snd (run short_run (default_world [])))) = 3.
Proof.
  assert (Hs : settled (default_world []))
    by (apply start_settled; lia).
  split; [exact Hs|]. split.
  - exact (proj1 (run_stays_settled short_run (default_world []) _ _ Hs
                    (surjective_pairing _))).
  - vm_compute. reflexivity.
Defined.

(** X7: in a field with at least one row and no more than one row taller
    than it is wide (the default, 30 by 100, is one) nothing ever
    raises: from a settled state every run of the two threads completes,
    and each frame it draws is a scene of [height] lines of [width]
    characters, followed by the help text or not. *)
Theorem run_draws_every_frame (evs : list event) : forall w : World,
  settled w -> 0 < height (snow w) <= width (snow w) + 1 ->
  exists ps w',
    run evs w = (Ok ps, w') /\ settled w' /\
    Forall (frame_texts (height (snow w)) (width (snow w))) ps.
Proof.
  induction evs as [|ev rest IH]; intros w Hs Hh; cbn [run].
  - exists [], w. split; [reflexivity|]. split; [exact Hs|constructor].
  - destruct (running w).
    2: { exists [], w. split; [reflexivity|]. split; [exact Hs|constructor]. }
    destruct ev as [|s].
    + destruct (frame_ok w Hs Hh) as (p & w1 & Ef & Hs1 & Hh1 & Hw1 & _ & Hp).
      destruct (IH w1 Hs1) as (ps & w' & Er & Hs' & Hps); [rewrite Hh1, Hw1; exact Hh|].
      exists (p :: ps), w'.
      rewrite (bind_ok _ _ _ _ _ Ef), (bind_ok _ _ _ _ _ Er).
      split; [reflexivity|]. split; [exact Hs'|].
      constructor; [exact Hp|]. rewrite Hh1, Hw1 in Hps. exact Hps.
    + destruct (handle_input_settled s w Hs) as (w1 & E1 & Hs1 & Hh1 & Hw1).
      destruct (IH w1 Hs1) as (ps & w' & Er & Hs' & Hps); [rewrite Hh1, Hw1; exact Hh|].
      exists ps, w'. rewrite (bind_ok _ _ _ _ _ E1).
      split; [exact Er|]. split; [exact Hs'|].
      rewrite Hh1, Hw1 in Hps. exact Hps.
Qed.


Lemma run_draws_every_frame_witness :
  settled (default_world []) /\
  0 < height (snow (default_world [])) <= width (snow (default_world [])) + 1 /\
  exists ps w', run short_run (default_world []) = (Ok ps, w') /\
                Forall (frame_texts 30 100) ps.
Proof.
  assert (Hs : settled (default_world [])) by (apply start_settled; lia).
  assert (Hh : 0 < height (snow (default_world []))
               <= width (snow (default_world [])) + 1) by (cbn; lia).
  split; [exact Hs|]. split; [exact Hh|].
  destruct (run_draws_every_frame short_run (default_world []) Hs Hh)
    as (ps & w' & E & _ & Hps).
  exists ps, w'. split; [exact E | exact Hps].
Defined.

(** ** A generator that always draws 0 *)

Lemma randbelow_zero (n : nat) (w : World) :
  zero_draws (rng w) ->
  exists w', randbelow n w = (Ok O, w') /\ zero_draws (rng w') /\ only_rng w w'.
Proof.
  intros Hz. eexists. split; [|split].
  - unfold randbelow. rewrite Hz. rewrite Nat.Div0.mod_0_l. reflexivity.
  - exact Hz.
  - apply only_rng_with_rng.
Qed.

Lemma random_choice_zero (w : World) :
  zero_draws (rng w) ->
  exists w', random_choice [-1; 0; 1] w = (Ok (-1), w') /\
             zero_draws (rng w') /\ only_rng w w'.
Proof.
  intros Hz. destruct (randbelow_zero 3 w Hz) as (w1 & E1 & Hz1 & Hw1).
  exists w1. unfold random_choice. cbn [length].
  rewrite (bind_ok _ _ _ _ _ E1). auto.
Qed.

Lemma moved_flakes_zero (fl : list flake) : forall w : World,
  zero_draws (rng w) ->
  exists w', moved_flakes fl w = (Ok (map down_left fl), w') /\
             zero_draws (rng w') /\ only_rng w w'.
Proof.
  induction fl as [|[row col] rest IH]; intros w Hz.
  - exists w. cbn. auto using only_rng_refl.
  - destruct (random_choice_zero w Hz) as (w1 & E1 & Hz1 & Hw1).
    destruct (IH w1 Hz1) as (w' & E & Hz' & Hw').
    exists w'. cbn [moved_flakes map].
    rewrite (bind_ok _ _ _ _ _ E1), (bind_ok _ _ _ _ _ E).
    split; [reflexivity|]. split; [exact Hz'|eauto with snow].
Qed.

Lemma sample_pool_draws (k : nat) : forall (pool : list Z) (m : nat) w r w',
  sample_pool pool m k w = (r, w') -> draws (rng w') = draws (rng w).
Proof.
  induction k as [|k IH]; intros pool m w r w' E; cbn [sample_pool] in E.
  - now injection E as _ <-.
  - unfold bind at 1 in E. cbn [randbelow] in E.
    unfold randbelow in E. cbv zeta in E.
    set (w1 := with_rng _ w) in E.
    unfold bind at 1 in E. unfold item at 1 in E.
    destruct (pool !! _) as [x|]; [|now injection E as _ <-].
    cbn [ret] in E. unfold bind at 1 in E. unfold item at 1 in E.
    destruct (pool !! _) as [y|]; [|now injection E as _ <-].
    cbn [ret] in E. unfold bind in E.
    destruct (sample_pool _ _ k w1) as [[res|e] w2] eqn:E2;
      apply IH in E2; injection E as _ <-; exact E2.
Qed.

(** With every draw 0 the sample starts with the first item. *)
Lemma sample_pool_zero (k : nat) (pool : list Z) (m : nat) (x : Z) (w : World) :
  zero_draws (rng w) -> (S k <= m <= length pool)%nat -> pool !! O = Some x ->
  exists rest w', sample_pool pool m (S k) w = (Ok (x :: rest), w') /\
                  zero_draws (rng w') /\ only_rng w w'.
Proof.
  intros Hz Hm Hx.
  destruct (randbelow_zero m w Hz) as (w1 & E1 & Hz1 & Hw1).
  destruct (lookup_lt_is_Some_2 pool (m - 1)) as [y Hy]; [lia|].
  destruct (sample_pool_ok k (<[O := y]> pool) (m - 1) w1)
    as (res & w' & E & Hw' & _); [rewrite length_insert; lia|].
  exists res, w'. cbn [sample_pool].
  rewrite (bind_ok _ _ _ _ _ E1).
  rewrite (bind_ok _ _ _ _ _ (item_ok _ _ _ _ Hx)).
  rewrite (bind_ok _ _ _ _ _ (item_ok _ _ _ _ Hy)).
  rewrite (bind_ok _ _ _ _ _ E).
  split; [reflexivity|]. split; [|eauto with snow].
  intros n. rewrite (sample_pool_draws _ _ _ _ _ _ E). apply Hz1.
Qed.

Lemma new_flakes_zero (w : World) :
  zero_draws (rng w) -> 1 <= num_flakes (snow w) <= width (snow w) ->
  exists rest w', new_flakes w = (Ok ((0, 0) :: rest), w') /\
                  zero_draws (rng w') /\ only_rng w w'.
Proof.
  intros Hz Hn.
  destruct (Z.to_nat (num_flakes (snow w))) as [|k] eqn:Ek; [lia|].
  destruct (sample_pool_zero k (range (width (snow w)))
              (length (range (width (snow w)))) 0 w Hz)
    as (res & w' & E & Hz' & Hw').
  { pose proof (length_range (width (snow w))). lia. }
  { unfold range. apply lookup_seqZ. lia. }
  exists (map (fun col => (0, col)) res), w'.
  split; [|split; assumption].
  unfold new_flakes, get_snow. cbn [bind].
  assert (Es : random_sample (range (width (snow w))) (num_flakes (snow w)) w
               = (Ok (0 :: res), w')).
  { unfold random_sample.
    replace ((0 <=? num_flakes (snow w))
             && (num_flakes (snow w) <=? Z.of_nat (length (range (width (snow w))))))
      with true.
    - rewrite Ek. exact E.
    - symmetry. apply andb_true_iff. rewrite !Z.leb_le, length_range. lia. }
  rewrite (bind_ok _ _ _ _ _ Es). reflexivity.
Qed.

(** A tick with every draw 0: every flake goes down and left, and a
    flake spawns in column 0. *)
Lemma update_flakes_zero (w : World) :
  zero_draws (rng w) -> 1 <= num_flakes (snow w) <= width (snow w) ->
  exists rest w',
    update_flakes w = (Ok tt, w') /\ zero_draws (rng w') /\
    snow w' = with_flakes
                (filter (in_rows (height (snow w)))
                        (map down_left (flakes (snow w)) ++ (0, 0) :: rest))
                (snow w).
Proof.
  intros Hz Hn.
  destruct (moved_flakes_zero (flakes (snow w)) w Hz)
    as (w1 & E1 & Hz1 & (Hs1 & _)).
  destruct (new_flakes_zero (after_move (map down_left (flakes (snow w))) w1))
    as (rest & w2 & E2 & Hz2 & (Hs2 & _)); [exact Hz1|cbn; rewrite Hs1; exact Hn|].
  exists rest. eexists.
  unfold update_flakes, get_snow, set_flakes, bind.
  rewrite E1. fold (after_move (map down_left (flakes (snow w))) w1).
  rewrite E2. split; [reflexivity|]. split; [exact Hz2|].
  cbn. rewrite Hs2. cbn. rewrite Hs1. reflexivity.
Qed.

(** So a flake at [(k, -k)] is at [(k + n, -(k + n))] after [n] more
    ticks, while that row is in the field. *)
Lemma ticks_zero (n : nat) : forall (w : World) (k : Z),
  zero_draws (rng w) -> 1 <= num_flakes (snow w) <= width (snow w) ->
  (k, - k) ∈ flakes (snow w) -> k + Z.of_nat n < height (snow w) ->
  exists w', ticks n w = (Ok tt, w') /\
             height (snow w') = height (snow w) /\
             width (snow w') = width (snow w) /\
             (k + Z.of_nat n, - (k + Z.of_nat n)) ∈ flakes (snow w').
Proof.
  induction n as [|n IH]; intros w k Hz Hn Hin Hk.
  - exists w. cbn [ticks ret]. replace (k + Z.of_nat 0) with k by lia. auto.
  - destruct (update_flakes_zero w Hz Hn) as (rest & w1 & E1 & Hz1 & Hs1).
    destruct (IH w1 (k + 1)) as (w' & E & Hh & Hw & Hin').
    + exact Hz1.
    + rewrite Hs1. exact Hn.
    + rewrite Hs1. cbn [with_flakes flakes]. apply list_elem_of_filter. split.
      * unfold in_rows. cbn. lia.
      * apply elem_of_app. left.
        replace (k + 1, - (k + 1)) with (down_left (k, - k))
          by (unfold down_left; cbn; f_equal; lia).
        now apply list_elem_of_fmap_2.
    + rewrite Hs1. cbn [with_flakes height]. lia.
    + exists w'. cbn [ticks]. rewrite (bind_ok _ _ _ _ _ E1).
      split; [exact E|]. rewrite Hh, Hw, Hs1. cbn [with_flakes height width].
      split; [reflexivity|]. split; [reflexivity|].
      replace (k + Z.of_nat (S n)) with (k + 1 + Z.of_nat n) by lia.
      exact Hin'.
Qed.

(** X8: a field at least two rows taller than it is wide, in which at
    least one flake spawns per tick, can crash: when the generator keeps
    drawing 0, so that a flake spawns in column 0 and every flake drifts
    left, [width + 2] ticks complete and leave a flake at column
    [-(width + 1)], on which [render] raises [IndexError]. *)
Theorem tall_field_can_crash (w : World) :
  zero_draws (rng w) ->
  1 <= num_flakes (snow w) <= width (snow w) ->
  width (snow w) + 2 <= height (snow w) ->
  exists w',
    ticks (Z.to_nat (width (snow w)) + 2) w = (Ok tt, w') /\
    (width (snow w) + 1, - (width (snow w) + 1)) ∈ flakes (snow w') /\
    render w' = (Raise IndexError, w').
Proof.
  intros Hz Hn Hh.
  replace (Z.to_nat (width (snow w)) + 2)%nat
    with (S (Z.to_nat (width (snow w) + 1))) by lia.
  destruct (update_flakes_zero w Hz Hn) as (rest & w1 & E1 & Hz1 & Hs1).
  destruct (ticks_zero (Z.to_nat (width (snow w) + 1)) w1 0)
    as (w' & E & Hh' & Hw' & Hin).
  - exact Hz1.
  - rewrite Hs1. exact Hn.
  - rewrite Hs1. cbn [with_flakes flakes]. apply list_elem_of_filter. split.
    + unfold in_rows. cbn. lia.
    + apply elem_of_app. right. left.
  - rewrite Hs1. cbn [with_flakes height]. lia.
  - rewrite Hs1 in Hh', Hw'. cbn [with_flakes height width] in Hh', Hw'.
    replace (0 + Z.of_nat (Z.to_nat (width (snow w) + 1)))
      with (width (snow w) + 1) in Hin by lia.
    exists w'. cbn [ticks]. rewrite (bind_ok _ _ _ _ _ E1).
    split; [exact E|]. split; [exact Hin|].
    apply render_raise. apply Exists_exists.
    exists (width (snow w) + 1, - (width (snow w) + 1)).
    split; [exact Hin|]. unfold off_grid. rewrite Hh', Hw'. cbn [fst snd]. lia.
Qed.

Lemma tall_field_can_crash_witness :
  zero_draws (rng (start (Snow_init 30 12 9) zero_rng [])) /\
  exists w', ticks 14 (start (Snow_init 30 12 9) zero_rng []) = (Ok tt, w') /\
             render w' = (Raise IndexError, w').
Proof.
  assert (Hz : zero_draws (rng (start (Snow_init 30 12 9) zero_rng [])))
    by (intros n; reflexivity).
  split; [exact Hz|].
  destruct (tall_field_can_crash (start (Snow_init 30 12 9) zero_rng []) Hz)
    as (w' & E & _ & Er).
  - change (1 <= 1 <= 12). lia.
  - change (12 + 2 <= 30). lia.
  - exists w'. split; [exact E | exact Er].
Defined.

(** ** Rendering *)

(** X9: [render] raises [IndexError] exactly when some flake that passes
    its test [row < height and col < width] has its row below
    [-height] or its column below [-width] (the sizes counted as 0 when
    negative); it returns a text exactly when no flake does; either way
    it changes nothing. *)
Theorem render_raises_exactly (w : World) :
  (render w = (Raise IndexError, w) <->
   Exists (off_grid (height (snow w)) (width (snow w))) (flakes (snow w))) /\
  ((exists out, render w = (Ok out, w)) <->
   Forall (fun f => ~ off_grid (height (snow w)) (width (snow w)) f)
          (flakes (snow w))) /\
  (forall r w', render w = (r, w') -> w' = w).
Proof.
  destruct (Forall_Exists_dec
              (fun f => ~ off_grid (height (snow w)) (width (snow w)) f)
              (fun f => off_grid (height (snow w)) (width (snow w)) f)
              (fun f => match decide (off_grid (height (snow w))
                                               (width (snow w)) f) with
                        | left H => right H
                        | right H => left H
                        end)
              (flakes (snow w))) as [Hall|Hex].
  - destruct (render_ok w Hall) as [g [E _]].
    split; [|split].
    + split; [rewrite E; discriminate|].
      intros Hex. now apply Forall_not_Exists in Hall.
    + split; [intros _; exact Hall|]. intros _. now exists (join_rows g).
    + intros r w'. apply render_world.
  - pose proof (render_raise w Hex) as E.
    split; [|split].
    + split; [intros _; exact Hex|intros _; exact E].
    + split; [intros [out Eo]; rewrite E in Eo; discriminate|].
      intros Hall. now apply Forall_not_Exists in Hall.
    + intros r w'. apply render_world.
Qed.

(** X10: when no flake has a negative row or column, [render] draws the
    field as it is: it returns, for a field with at least one row, a
    text of [height] lines of [width] characters in which the character
    at line [i], column [j] is the marker when some flake is at
    [(i, j)] and a blank otherwise; flakes right of the field or below
    it show nowhere. *)
Theorem render_shows_flakes (w : World) :
  0 < height (snow w) ->
  Forall (fun f => 0 <= fst f /\ 0 <= snd f) (flakes (snow w)) ->
  exists out,
    render w = (Ok out, w) /\
    Z.of_nat (length (split_lines out)) = height (snow w) /\
    Forall (fun l => Z.of_nat (String.length l) = Z.max 0 (width (snow w)))
           (split_lines out) /\
    forall i j : nat,
      Z.of_nat i < height (snow w) -> Z.of_nat j < width (snow w) ->
      text_cell out i j =
        Some (if decide ((Z.of_nat i, Z.of_nat j) ∈ flakes (snow w))
              then marker else blank).
Proof.
  intros Hh Hpos.
  destruct (render_ok w) as [g [E Hg]].
  { eapply Forall_impl; [exact Hpos|]. intros f [Hr Hc] (_ & _ & Hout). lia. }
  exists (join_rows g). split; [exact E|].
  destruct (render_lines w _ _ Hh E) as (_ & Hlen & Hlines).
  split; [exact Hlen|]. split; [exact Hlines|].
  intros i j Hi Hj.
  pose proof (render_cells w _ _ Hh E i j) as Hcell.
  assert (Hsome : exists c, text_cell (join_rows g) i j = Some c /\
                            (c = blank \/ c = marker)).
  { destruct (Z.to_nat (height (snow w))) as [|h] eqn:Eh; [lia|].
    rewrite (text_cell_join_rows _ _ _ _ _ Hg). unfold cell.
    destruct Hg as [Hlg Hrows].
    destruct (lookup_lt_is_Some_2 g i) as [r Hr]; [lia|]. rewrite Hr.
    destruct (proj1 (Forall_lookup _ _) Hrows _ _ Hr) as [Hlr Hcs].
    destruct (lookup_lt_is_Some_2 r j) as [c Hc]; [lia|].
    exists c. split; [exact Hc|].
    exact (proj1 (Forall_lookup _ _) Hcs _ _ Hc). }
  destruct Hsome as (c & Hc & Hbm).
  destruct (decide ((Z.of_nat i, Z.of_nat j) ∈ flakes (snow w))) as [Hin|Hout].
  - apply Hcell. exists (Z.of_nat i, Z.of_nat j). split; [exact Hin|].
    unfold marks_at. cbn [fst snd]. split; [exact Hi|]. split; [exact Hj|].
    rewrite !py_index_nonneg by lia. now rewrite !Nat2Z.id.
  - rewrite Hc. f_equal. destruct Hbm as [->| ->]; [reflexivity|].
    exfalso. apply Hout. apply Hcell in Hc as ([row col] & Hf & Hr & Hcl & Hpi & Hpj).
    rewrite Forall_forall in Hpos. destruct (Hpos _ Hf) as [Hr0 Hc0].
    cbn [fst snd] in *.
    rewrite py_index_nonneg in Hpi, Hpj by lia.
    injection Hpi as <-. injection Hpj as <-.
    rewrite !Z2Nat.id by lia. exact Hf.
Qed.

Lemma render_shows_flakes_witness :
  0 < height (snow small_world) /\
  exists out, render small_world = (Ok out, small_world) /\
              text_cell out 1 2 = Some marker /\
              text_cell out 0 1 = Some blank.
Proof.
  assert (Hh : 0 < height (snow small_world)) by (cbn; lia).
  split; [exact Hh|].
  destruct (render_shows_flakes small_world Hh) as (out & E & _ & _ & Hcells).
  { cbn. repeat constructor; cbn; lia. }
  exists out. split; [exact E|]. split.
  - exact (Hcells 1%nat 2%nat ltac:(cbn; lia) ltac:(cbn; lia)).
  - exact (Hcells 0%nat 1%nat ltac:(cbn; lia) ltac:(cbn; lia)).
Defined.

(** ** The parser of [main] *)

Lemma range_contains_step1 (lo hi v : Z) :
  range_contains (mkRange lo hi 1) v = true <-> lo <= v < hi.
Proof.
  unfold range_contains. cbn [range_start range_stop range_step].
  change (0 <? 1) with true. cbv iota. rewrite Z.mod_1_r.
  change (0 =? 0) with true. rewrite andb_true_r, andb_true_iff.
  rewrite Z.leb_le, Z.ltb_lt. reflexivity.
Qed.

Lemma main_parser_ok : main_parser = Ok main_arguments.
Proof. vm_compute. reflexivity. Qed.

Lemma find_main_arguments (name : string) :
  List.find (fun a => String.eqb (arg_dest a) name) main_arguments =
  if String.eqb "tick_rate_ms" name then main_arguments !! 0%nat
  else if String.eqb "width" name then main_arguments !! 1%nat
  else if String.eqb "height" name then main_arguments !! 2%nat
  else if String.eqb "intensity" name then main_arguments !! 3%nat
  else None.
Proof.
  unfold main_arguments. cbn [List.find arg_dest].
  destruct (String.eqb "tick_rate_ms" name); [reflexivity|].
  destruct (String.eqb "width" name); [reflexivity|].
  destruct (String.eqb "height" name); [reflexivity|].
  destruct (String.eqb "intensity" name); reflexivity.
Qed.

(** Parsing goes through exactly when every option is admitted, and then
    stores every one of them in turn. *)
Lemma parse_loop_main (argv : list (string * Z)) : forall ns : gmap string Z,
  match parse_loop main_arguments argv ns with
  | Parsed ns' => Forall admitted argv /\ ns' = stored ns argv
  | _ => ~ Forall admitted argv
  end.
Proof.
  induction argv as [|[name v] rest IH]; intros ns.
  - cbn. auto.
  - cbn [parse_loop]. rewrite find_main_arguments.
    destruct (String.eqb_spec "tick_rate_ms" name) as [<-|Ht].
    { cbn [lookup list_lookup main_arguments arg_action].
      unfold CheckRange_call. cbn [cr_range cr_dest].
      destruct (range_contains (mkRange 1 1000 1) v) eqn:Er.
      - apply range_contains_step1 in Er.
        specialize (IH (<["tick_rate_ms"%string := v]> ns)).
        destruct (parse_loop main_arguments rest _).
        + destruct IH as [Hall ->]. split; [|reflexivity].
          constructor; [|exact Hall]. left. cbn. split; [reflexivity|lia].
        + intros H. apply Forall_cons in H as [_ H]. now apply IH.
        + intros H. apply Forall_cons in H as [_ H]. now apply IH.
      - intros H. apply Forall_cons in H as [H _].
        assert (Hr : ~ 1 <= v < 1000).
        { intros Hv. apply range_contains_step1 in Hv. congruence. }
        destruct H as [[_ H]|[H|[H|[H _]]]]; cbn in H;
          [lia|discriminate|discriminate|discriminate]. }
    destruct (String.eqb_spec "width" name) as [<-|Hw].
    { cbn [lookup list_lookup main_arguments arg_action arg_dest].
      specialize (IH (<["width"%string := v]> ns)).
      destruct (parse_loop main_arguments rest _).
      - destruct IH as [Hall ->]. split; [|reflexivity].
        constructor; [|exact Hall]. right. now left.
      - intros H. apply Forall_cons in H as [_ H]. now apply IH.
      - intros H. apply Forall_cons in H as [_ H]. now apply IH. }
    destruct (String.eqb_spec "height" name) as [<-|Hh].
    { cbn [lookup list_lookup main_arguments arg_action arg_dest].
      specialize (IH (<["height"%string := v]> ns)).
      destruct (parse_loop main_arguments rest _).
      - destruct IH as [Hall ->]. split; [|reflexivity].
        constructor; [|exact Hall]. right. right. now left.
      - intros H. apply Forall_cons in H as [_ H]. now apply IH.
      - intros H. apply Forall_cons in H as [_ H]. now apply IH. }
    destruct (String.eqb_spec "intensity" name) as [<-|Hi].
    { cbn [lookup list_lookup main_arguments arg_action].
      unfold CheckRange_call. cbn [cr_range cr_dest].
      destruct (range_contains (mkRange 0 10 1) v) eqn:Er.
      - apply range_contains_step1 in Er.
        specialize (IH (<["intensity"%string := v]> ns)).
        destruct (parse_loop main_arguments rest _).
        + destruct IH as [Hall ->]. split; [|reflexivity].
          constructor; [|exact Hall]. right. right. right. cbn.
          split; [reflexivity|lia].
        + intros H. apply Forall_cons in H as [_ H]. now apply IH.
        + intros H. apply Forall_cons in H as [_ H]. now apply IH.
      - intros H. apply Forall_cons in H as [H _].
        assert (Hr : ~ 0 <= v < 10).
        { intros Hv. apply range_contains_step1 in Hv. congruence. }
        destruct H as [[H _]|[H|[H|[_ H]]]]; cbn in H;
          [discriminate|discriminate|discriminate|lia]. }
    intros H. apply Forall_cons in H as [H _].
    destruct H as [[H _]|[H|[H|[H _]]]]; cbn in H; congruence.
Qed.

(** The attribute an option ends with. *)
Lemma stored_lookup (name : string) (argv : list (string * Z)) :
  forall (ns : gmap string Z) (d : Z),
  ns !! name = Some d -> stored ns argv !! name = Some (option_value name d argv).
Proof.
  induction argv as [|[n v] rest IH]; intros ns d Hd; [exact Hd|].
  unfold stored, option_value. cbn [foldl fst snd].
  apply IH. destruct (String.eqb_spec n name) as [->|Hn].
  - apply lookup_insert_eq.
  - rewrite lookup_insert_ne by exact Hn. exact Hd.
Qed.

Lemma option_value_admitted (argv : list (string * Z)) :
  Forall admitted argv ->
  forall d t, 0 <= d <= 9 -> 1 <= t <= 999 ->
  0 <= option_value "intensity" d argv <= 9 /\
  1 <= option_value "tick_rate_ms" t argv <= 999.
Proof.
  induction 1 as [|[n v] rest Hnv _ IH]; intros d t Hd Ht; [cbn; auto|].
  unfold option_value. cbn [foldl fst snd]. apply IH.
  - destruct (String.eqb_spec n "intensity") as [->|_]; [|exact Hd].
    destruct Hnv as [[H _]|[H|[H|[_ H]]]]; cbn in H;
      [discriminate|discriminate|discriminate|exact H].
  - destruct (String.eqb_spec n "tick_rate_ms") as [->|_]; [|exact Ht].
    destruct Hnv as [[_ H]|[H|[H|[H _]]]]; cbn in H;
      [exact H|discriminate|discriminate|discriminate].
Qed.

(** X11: [main] accepts a command line exactly when every [--intensity]
    on it is within 0 .. 9 and every [--tick_rate-ms] within 1 .. 999,
    whatever the widths and heights on it, negative ones too; it then
    starts its threads on a field with no flakes whose height, width and
    intensity are the last ones given, or the defaults 30, 100 and 2,
    with [running] and [display_help] true.  So the intensity it starts
    with is within 0 .. 9, and the world it starts in is settled when
    the width is not negative. *)
Theorem main_world_validates (argv : list (string * Z)) (g : Rng)
    (lines : list string) :
  (forall w0,
     main_world argv g lines = Ok (Parsed w0) <->
     Forall admitted argv /\
     w0 = start (Snow_init (option_value "height" 30 argv)
                           (option_value "width" 100 argv)
                           (option_value "intensity" 2 argv)) g lines) /\
  (forall w0,
     main_world argv g lines = Ok (Parsed w0) ->
     0 <= intensity (snow w0) <= 9 /\ flakes (snow w0) = [] /\
     running w0 = true /\ display_help w0 = true /\
     (0 <= width (snow w0) -> settled w0)).
Proof.
  assert (Hiff : forall w0,
     main_world argv g lines = Ok (Parsed w0) <->
     Forall admitted argv /\
     w0 = start (Snow_init (option_value "height" 30 argv)
                           (option_value "width" 100 argv)
                           (option_value "intensity" 2 argv)) g lines).
  { intros w0. unfold main_world, parse_args. rewrite main_parser_ok.
    pose proof (parse_loop_main argv (defaults main_arguments)) as Hp.
    destruct (parse_loop main_arguments argv (defaults main_arguments))
      as [args|d x|n].
    - destruct Hp as [Hall ->].
      rewrite (lookup_total_correct _ _ _
                 (stored_lookup "height" argv (defaults main_arguments) 30 eq_refl)).
      rewrite (lookup_total_correct _ _ _
                 (stored_lookup "width" argv (defaults main_arguments) 100 eq_refl)).
      rewrite (lookup_total_correct _ _ _
                 (stored_lookup "intensity" argv (defaults main_arguments) 2 eq_refl)).
      split.
      + intros [= <-]. now split.
      + intros [_ ->]. reflexivity.
    - split; [discriminate|]. intros [Hall _]. now destruct Hp.
    - split; [discriminate|]. intros [Hall _]. now destruct Hp. }
  split; [exact Hiff|].
  intros w0 E. apply Hiff in E as [Hall ->].
  destruct (option_value_admitted argv Hall 2 100) as [Hi _]; [lia|lia|].
  cbn [start Snow_init snow intensity flakes running display_help width].
  split; [exact Hi|]. split; [reflexivity|]. split; [reflexivity|].
  split; [reflexivity|].
  intros Hw. apply start_settled; [exact Hw|lia].
Qed.

Lemma main_world_validates_witness :
  Forall admitted some_argv /\
  main_world some_argv zero_rng [] =
    Ok (Parsed (start (Snow_init 20 40 7) zero_rng [])).
Proof.
  assert (Hall : Forall admitted some_argv).
  { unfold some_argv, admitted. repeat constructor; cbn; intuition lia. }
  split; [exact Hall|].
  apply (proj1 (main_world_validates some_argv zero_rng [])).
  split; [exact Hall|reflexivity].
Defined.

(** ** Class [CheckRange] *)


(** ** How many flakes there are *)

Lemma row_count_app (r : Z) (l k : list flake) :
  row_count r (l ++ k) = (row_count r l + row_count r k)%nat.
Proof. unfold row_count. now rewrite filter_app, length_app. Qed.

Lemma row_count_cons (r : Z) (f : flake) (l : list flake) :
  row_count r (f :: l) =
  ((if decide (fst f = r) then 1 else 0) + row_count r l)%nat.
Proof.
  unfold row_count. rewrite filter_cons. now destruct (decide (fst f = r)).
Qed.

Lemma row_count_filter (r h : Z) (l : list flake) :
  (row_count r (filter (in_rows h) l) <= row_count r l)%nat.
Proof.
  induction l as [|f l IH]; [reflexivity|].
  rewrite filter_cons. destruct (decide (in_rows h f)).
  - rewrite !row_count_cons. lia.
  - rewrite row_count_cons. lia.
Qed.

Lemma row_count_moved (r : Z) (fl moved : list flake) :
  Forall2 shimmied fl moved -> row_count r moved = row_count (r - 1) fl.
Proof.
  induction 1 as [|f f' fl moved (d & _ & ->) _ IH]; [reflexivity|].
  rewrite !row_count_cons, IH. cbn [fst].
  destruct (decide (fst f + 1 = r)), (decide (fst f = r - 1)); lia.
Qed.

Lemma row_count_none (r : Z) (l : list flake) :
  Forall (fun f => fst f <> r) l -> row_count r l = O.
Proof.
  induction 1 as [|f l Hf _ IH]; [reflexivity|].
  rewrite row_count_cons, IH. now destruct (decide (fst f = r)).
Qed.

Lemma row_count_le_length (r : Z) (l : list flake) :
  (row_count r l <= length l)%nat.
Proof.
  induction l as [|f l IH]; [reflexivity|].
  rewrite row_count_cons. cbn [length]. destruct (decide (fst f = r)); lia.
Qed.

(** The flakes of a list whose rows are all within [0, h) are those of
    its rows, row by row. *)
Lemma length_by_rows (B : Z) (h : nat) : forall l : list flake,
  Forall (fun f => 0 <= fst f < Z.of_nat h) l ->
  (forall r, Z.of_nat (row_count r l) <= B) ->
  Z.of_nat (length l) <= Z.of_nat h * B.
Proof.
  induction h as [|h IH]; intros l Hrows Hcount.
  - destruct l as [|f l]; [cbn; lia|].
    apply Forall_cons in Hrows as [Hf _]. lia.
  - pose proof (filter_app_complement (fun f : flake => fst f = Z.of_nat h) l) as Hp.
    apply Permutation_length in Hp. rewrite length_app in Hp.
    specialize (IH (filter (fun f : flake => ~ fst f = Z.of_nat h) l)).
    assert (H1 : Z.of_nat (length (filter (fun f : flake => ~ fst f = Z.of_nat h) l))
                 <= Z.of_nat h * B).
    { apply IH.
      - apply Forall_forall. intros f Hf.
        apply list_elem_of_filter in Hf as [Hne Hf].
        rewrite Forall_forall in Hrows. specialize (Hrows f Hf). lia.
      - intros r. etransitivity; [|apply (Hcount r)].
        apply inj_le. unfold row_count. rewrite list_filter_filter.
        clear. induction l as [|f l IHl]; [reflexivity|].
        rewrite !filter_cons.
        destruct (decide (fst f = r /\ ~ fst f = Z.of_nat h)) as [[? ?]|?];
          destruct (decide (fst f = r)); cbn [length]; try lia; tauto. }
    specialize (Hcount (Z.of_nat h)). unfold row_count in Hcount. lia.
Qed.

(** A tick keeps the rows sparse. *)
Lemma update_flakes_sparse (w w' : World) :
  settled w -> sparse w -> update_flakes w = (Ok tt, w') -> sparse w'.
Proof.
  intros (Hw & Hi & Hall) Hsp E.
  apply update_flakes_inv in E as (moved & new & Hmv & Hnew & Hs & _).
  intros r. rewrite Hs. cbn [with_flakes flakes width].
  etransitivity; [apply inj_le, row_count_filter|].
  rewrite row_count_app, (row_count_moved _ _ _ Hmv).
  destruct Hnew as (Hlen & Hrows & _).
  destruct (decide (r = 0)) as [->|Hr].
  - rewrite (row_count_none (0 - 1)).
    + pose proof (row_count_le_length 0 new).
      assert (num_flakes (snow w) <= width (snow w) / 10).
      { unfold num_flakes, int_div100.
        rewrite Z.quot_div_nonneg by nia.
        replace (width (snow w) / 10) with (width (snow w) * 10 / 100).
        - apply Z.div_le_mono; nia.
        - replace 100 with (10 * 10) by reflexivity.
          rewrite Z.div_mul_cancel_r by lia. reflexivity. }
      unfold flake in *. lia.
    + eapply Forall_impl; [exact Hall|]. intros f [Hf _]. lia.
  - rewrite (row_count_none r new).
    + specialize (Hsp (r - 1)). lia.
    + eapply Forall_impl; [exact Hrows|]. intros f [Hf _]. lia.
Qed.

(** X13: the flake list stays bounded.  From a settled state in which no
    row holds more than [width / 10] flakes (the start of [main], with
    no flakes, is one) every run of the two threads leaves at most
    [width / 10] flakes in each row, hence at most
    [height * (width / 10)] flakes in all. *)
Theorem run_bounds_flakes (evs : list event) (w : World) r w' :
  settled w -> sparse w -> run evs w = (r, w') ->
  sparse w' /\
  Z.of_nat (length (flakes (snow w')))
    <= Z.max 0 (height (snow w)) * (width (snow w) / 10).
Proof.
  intros Hs Hsp E.
  destruct (run_inv (fun v => (settled v /\ sparse v) /\
                              height (snow v) = height (snow w) /\
                              width (snow v) = width (snow w)))
    with (evs := evs) (w := w) (r := r) (w' := w')
    as [([Hs' Hsp'] & Hh & Hw) _]; auto.
  - now intros v [[Hv _] _].
  - intros v v' ([Hv Hspv] & Hh & Hw) Et.
    destruct (update_flakes_settled v Hv) as (v1 & E1 & Hs1 & Hh1 & Hw1 & _).
    pose proof (update_flakes_sparse v v' Hv Hspv Et).
    rewrite Et in E1. injection E1 as <-.
    split; [now split|]. split; congruence.
  - intros s v v' ([Hv Hspv] & Hh & Hw) El.
    destruct (handle_input_ok s v) as (v1 & E1 & Hh1 & Hw1 & Hf1 & _).
    destruct (handle_input_settled s v Hv) as (v2 & E2 & Hs2 & _).
    rewrite El in E1, E2. injection E1 as <-. injection E2 as <-.
    split; [split; [exact Hs2|]|split; congruence].
    intros r0. rewrite Hf1, Hw1. apply Hspv.
  - split; [exact Hsp'|].
    destruct Hs' as (_ & _ & Hall). rewrite <- Hh, <- Hw.
    replace (Z.max 0 (height (snow w')))
      with (Z.of_nat (Z.to_nat (height (snow w')))) by lia.
    apply length_by_rows; [|exact Hsp'].
    eapply Forall_impl; [exact Hall|]. intros f [Hf _]. lia.
Qed.

Lemma run_bounds_flakes_witness :
  settled (default_world []) /\ sparse (default_world []) /\
  Z.of_nat (length (flakes (snow (snd (run short_run (default_world []))))))
    <= 300.
Proof.
  assert (Hs : settled (default_world [])) by (apply start_settled; lia).
  assert (Hsp : sparse (default_world []))
    by (intros r; change (Z.of_nat 0 <= 10); lia).
  split; [exact Hs|]. split; [exact Hsp|].
  exact (proj2 (run_bounds_flakes short_run (default_world []) _ _ Hs Hsp
                  (surjective_pairing _))).
Defined.
